(** * clamav-api-go: the clamd protocol client and its reply handling

    A shallow embedding of [internal/clamav] (commands, responses, errors,
    the client operations of clamav.go) and of [parseSignature] from
    [internal/controllers/instream.go], together with the parts of Go's
    standard library those functions rely on ([bytes], [strings],
    [unicode/utf8], [unicode], [bufio], [errors], [fmt.Errorf]). *)

From Stdlib Require Import String DecimalString Strings.Byte.
From Stdlib Require Import ZArith List Bool Lia.
From Equations Require Import Equations.
Import ListNotations.

Local Open Scope Z_scope.

(* ===================================================================== *)
(** ** Byte slices and Go strings *)
(* ===================================================================== *)

(** Both [[]byte] and [string] are sequences of bytes.  Where the code
    distinguishes a nil slice from an empty one (a returned payload), the
    value is an [option bytes] with [None] for nil. *)
Definition bytes := list byte.

Definition b2z (b : byte) : Z := Z.of_N (Byte.to_N b).

Definition z2b (z : Z) : byte :=
  match Byte.of_N (Z.to_N (z mod 256)) with
  | Some b => b
  | None => "000"%byte
  end.

(** A Go string or byte-slice literal. *)
Definition lit (s : string) : bytes := list_byte_of_string s.
Arguments lit s%_string.

Definition NUL : byte := "000"%byte.
Definition LF : byte := "010"%byte.

Fixpoint bytes_eqb (a b : bytes) : bool :=
  match a, b with
  | [], [] => true
  | x :: a', y :: b' => Byte.eqb x y && bytes_eqb a' b'
  | _, _ => false
  end.

Module GoBytes.

(** [bytes.Equal]: same length and same bytes; nil equals empty. *)
Definition Equal (a b : bytes) : bool := bytes_eqb a b.

(** [bytes.HasPrefix(s, prefix)]:
    [len(s) >= len(prefix) && Equal(s[:len(prefix)], prefix)]. *)
Definition HasPrefix (s prefix : bytes) : bool :=
  (length prefix <=? length s)%nat && Equal (firstn (length prefix) s) prefix.

(** [bytes.HasSuffix(s, suffix)]:
    [len(s) >= len(suffix) && Equal(s[len(s)-len(suffix):], suffix)]. *)
Definition HasSuffix (s suffix : bytes) : bool :=
  (length suffix <=? length s)%nat
  && Equal (skipn (length s - length suffix) s) suffix.

(** [bytes.TrimSuffix]. *)
Definition TrimSuffix (s suffix : bytes) : bytes :=
  if HasSuffix s suffix then firstn (length s - length suffix) s else s.

(** [strings.Contains(s, substr)]. *)
Fixpoint Contains (s substr : bytes) : bool :=
  HasPrefix s substr
  || match s with
     | [] => false
     | _ :: s' => Contains s' substr
     end.

(** Membership of a byte in an ASCII cutset ([asciiSet.contains]). *)
Definition inCutset (cutset : bytes) (b : byte) : bool :=
  existsb (Byte.eqb b) cutset.

(** [strings.TrimLeft(s, cutset)] for an ASCII cutset (all the cutsets of
    this program are ASCII): [trimLeftASCII] drops leading bytes while they
    belong to the set. *)
Fixpoint TrimLeft (s cutset : bytes) : bytes :=
  match s with
  | [] => []
  | b :: s' => if inCutset cutset b then TrimLeft s' cutset else s
  end.

(** [strings.TrimRight(s, cutset)] for an ASCII cutset: [trimRightASCII]
    drops trailing bytes while they belong to the set. *)
Definition TrimRight (s cutset : bytes) : bytes :=
  rev (TrimLeft (rev s) cutset).

End GoBytes.

(* ===================================================================== *)
(** ** unicode/utf8 and unicode: what [bytes.EqualFold] uses *)
(* ===================================================================== *)

Module Utf8.

Definition RuneSelf : Z := 0x80.
Definition RuneError : Z := 0xFFFD.
Definition MaxRune : Z := 0x10FFFF.

Definition xx : Z := 0xF1. (* invalid: size 1 *)
Definition as_ : Z := 0xF0. (* ASCII: size 1 *)
Definition s1 : Z := 0x02. (* accept 0, size 2 *)
Definition s2 : Z := 0x13. (* accept 1, size 3 *)
Definition s3 : Z := 0x03. (* accept 0, size 3 *)
Definition s4 : Z := 0x23. (* accept 2, size 3 *)
Definition s5 : Z := 0x34. (* accept 3, size 4 *)
Definition s6 : Z := 0x04. (* accept 0, size 4 *)
Definition s7 : Z := 0x44. (* accept 4, size 4 *)

Definition locb : Z := 0x80.
Definition hicb : Z := 0xBF.
Definition maskx : Z := 0x3F.
Definition mask2 : Z := 0x1F.
Definition mask3 : Z := 0x0F.
Definition mask4 : Z := 0x07.

(** The table [first]: information about the first byte of an encoding. *)
Definition first (p0 : Z) : Z :=
  if p0 <? 0x80 then as_
  else if p0 <? 0xC2 then xx
  else if p0 <? 0xE0 then s1
  else if p0 =? 0xE0 then s2
  else if p0 <? 0xED then s3
  else if p0 =? 0xED then s4
  else if p0 <? 0xF0 then s3
  else if p0 =? 0xF0 then s5
  else if p0 <? 0xF4 then s6
  else if p0 =? 0xF4 then s7
  else xx.

(** The table [acceptRanges]: the range allowed for the second byte. *)
Definition acceptRanges (i : Z) : Z * Z :=
  if i =? 0 then (locb, hicb)
  else if i =? 1 then (0xA0, hicb)
  else if i =? 2 then (locb, 0x9F)
  else if i =? 3 then (0x90, hicb)
  else if i =? 4 then (locb, 0x8F)
  else (0, 0).

(** [utf8.DecodeRune]: the first rune of [p] and its width in bytes; an
    invalid encoding gives [(RuneError, 1)], an empty input
    [(RuneError, 0)]. *)
Definition DecodeRune (p : bytes) : Z * nat :=
  match p with
  | [] => (RuneError, 0%nat)
  | c0 :: tl0 =>
    let p0 := b2z c0 in
    let x := first p0 in
    if x >=? as_ then
      ((if Z.odd x then RuneError else p0), 1%nat)
    else
      let sz := Z.land x 7 in
      let accept := acceptRanges (Z.shiftr x 4) in
      if Z.of_nat (length p) <? sz then (RuneError, 1%nat)
      else
        match tl0 with
        | [] => (RuneError, 1%nat)
        | c1 :: tl1 =>
          let b1 := b2z c1 in
          if (b1 <? fst accept) || (snd accept <? b1) then (RuneError, 1%nat)
          else if sz <=? 2 then
            (Z.lor (Z.shiftl (Z.land p0 mask2) 6) (Z.land b1 maskx), 2%nat)
          else
            match tl1 with
            | [] => (RuneError, 1%nat)
            | c2 :: tl2 =>
              let b2 := b2z c2 in
              if (b2 <? locb) || (hicb <? b2) then (RuneError, 1%nat)
              else if sz <=? 3 then
                (Z.lor (Z.lor (Z.shiftl (Z.land p0 mask3) 12)
                              (Z.shiftl (Z.land b1 maskx) 6))
                       (Z.land b2 maskx), 3%nat)
              else
                match tl2 with
                | [] => (RuneError, 1%nat)
                | c3 :: _ =>
                  let b3 := b2z c3 in
                  if (b3 <? locb) || (hicb <? b3) then (RuneError, 1%nat)
                  else
                    (Z.lor (Z.lor (Z.lor (Z.shiftl (Z.land p0 mask4) 18)
                                         (Z.shiftl (Z.land b1 maskx) 12))
                                  (Z.shiftl (Z.land b2 maskx) 6))
                           (Z.land b3 maskx), 4%nat)
                end
            end
        end
  end.

End Utf8.

Module Unicode.

(** [unicode.SimpleFold] on the orbits that meet ASCII.  Below 128 it is
    the table [asciiFold]: a letter goes to its other case, except that
    [k] goes on to the Kelvin sign U+212A and [s] to the long s U+017F;
    everything else is fixed.  The table [caseOrbit] closes the two
    three-element orbits (U+212A to [K], U+017F to [S]).  For a rune whose
    orbit holds no ASCII rune Go consults its Unicode case tables, which
    are not embedded: [bytes.EqualFold] folds only the smaller of two
    differing runes, and in this program one of them always comes from an
    ASCII literal, so no other orbit is ever walked. *)
Definition SimpleFold (r : Z) : Z :=
  if (r <? 0) || (Utf8.MaxRune <? r) then r
  else if r <? 128 then
    if (65 <=? r) && (r <=? 90) then r + 32
    else if r =? 107 then 0x212A
    else if r =? 115 then 0x017F
    else if (97 <=? r) && (r <=? 122) then r - 32
    else r
  else if r =? 0x017F then 83
  else if r =? 0x212A then 75
  else r.

End Unicode.

Module EqualFoldImpl.
Import Utf8 Unicode.

(** The first rune of a non-empty slice and what follows it, as the
    [hasUnicode] loop extracts them: a byte below [RuneSelf] is its own
    rune, anything else goes through [DecodeRune]. *)
Definition nextRune (c : byte) (tl : bytes) : Z * bytes :=
  if b2z c <? RuneSelf then (b2z c, tl)
  else
    let '(r, size) := DecodeRune (c :: tl) in
    (r, skipn (Nat.pred size) tl).

(** [for r != sr && r < tr { r = unicode.SimpleFold(r) }].  An orbit that
    meets ASCII has at most three runes, so three steps exhaust it. *)
Fixpoint foldWalk (n : nat) (sr tr r : Z) : Z :=
  match n with
  | O => r
  | S n' =>
    if negb (r =? sr) && (r <? tr)
    then foldWalk n' sr tr (SimpleFold r)
    else r
  end.

(** One round of the [hasUnicode] loop on the two extracted runes:
    [true] stands for [continue], [false] for [return false]. *)
Definition runeStep (sr0 tr0 : Z) : bool :=
  if tr0 =? sr0 then true
  else
    let '(sr, tr) := if tr0 <? sr0 then (tr0, sr0) else (sr0, tr0) in
    if tr <? RuneSelf then
      (65 <=? sr) && (sr <=? 90) && (tr =? sr + 97 - 65)
    else
      let r := foldWalk 3 sr tr (SimpleFold sr) in
      r =? tr.

(** The loop after the label [hasUnicode]. *)
Equations? hasUnicode (s t : bytes) : bool by wf (length s) lt :=
  hasUnicode [] t := Nat.eqb 0 (length t);
  hasUnicode (c :: s') [] := false;
  hasUnicode (c :: s') (d :: t') :=
    if runeStep (fst (nextRune c s')) (fst (nextRune d t'))
    then hasUnicode (snd (nextRune c s')) (snd (nextRune d t'))
    else false.
Proof.
  unfold nextRune.
  destruct (b2z c <? RuneSelf); [simpl; lia|].
  destruct (DecodeRune (c :: s')) as [r size]; simpl.
  rewrite length_skipn. lia.
Qed.

(** [bytes.EqualFold]: the ASCII fast path, leaving for [hasUnicode] at
    the first position where either byte is not ASCII. *)
Fixpoint EqualFold (s t : bytes) : bool :=
  match s, t with
  | c :: s', d :: t' =>
    let sr := b2z c in
    let tr := b2z d in
    if Z.lor sr tr >=? RuneSelf then hasUnicode s t
    else if tr =? sr then EqualFold s' t'
    else
      let '(sr, tr) := if tr <? sr then (tr, sr) else (sr, tr) in
      if (65 <=? sr) && (sr <=? 90) && (tr =? sr + 97 - 65)
      then EqualFold s' t'
      else false
  | _, _ => Nat.eqb (length s) (length t)
  end.

End EqualFoldImpl.

(* ===================================================================== *)
(** ** Errors: sentinels, wrapping, [errors.Is] *)
(* ===================================================================== *)

(** The package-level error values, each created once by [errors.New] and
    compared by identity: those of [internal/clamav] (errors.go), and the
    ones of [io] and [context] that the client meets. *)
Inductive sentinel : Type :=
| UnknownCommand
| UnknownResponse
| UnexpectedResponse
| ScanFileSizeLimitExceeded
| VirusFound
| EOF               (* io.EOF *)
| ShortWrite        (* io.ErrShortWrite *)
| Canceled          (* context.Canceled *)
| DeadlineExceeded. (* context.DeadlineExceeded *)

(** An error value.  [External] is an error raised outside the client: by
    the transport (a [*net.OpError], which implements [net.Error]), by the
    content reader or by the child process.  [Wrapf pre e post] is
    [fmt.Errorf] with one [%w] verb, [pre] and [post] being the rendered text
    around it; [Plainf msg] is [fmt.Errorf] without [%w]. *)
Inductive goerror : Type :=
| Sentinel (s : sentinel)
| External (isnet : bool) (msg : bytes)
| Wrapf (pre : bytes) (wrapped : goerror) (post : bytes)
| Plainf (msg : bytes).

Definition sentinel_eqb (a b : sentinel) : bool :=
  match a, b with
  | UnknownCommand, UnknownCommand
  | UnknownResponse, UnknownResponse
  | UnexpectedResponse, UnexpectedResponse
  | ScanFileSizeLimitExceeded, ScanFileSizeLimitExceeded
  | VirusFound, VirusFound
  | EOF, EOF
  | ShortWrite, ShortWrite
  | Canceled, Canceled
  | DeadlineExceeded, DeadlineExceeded => true
  | _, _ => false
  end.

Definition sentinel_text (s : sentinel) : bytes :=
  match s with
  | UnknownCommand => lit "unknown command"
  | UnknownResponse => lit "unknown response from clamav"
  | UnexpectedResponse => lit "unexpected response from clamav"
  | ScanFileSizeLimitExceeded => lit "size limit exceeded"
  | VirusFound => lit "file contains potential virus"
  | EOF => lit "EOF"
  | ShortWrite => lit "short write"
  | Canceled => lit "context canceled"
  | DeadlineExceeded => lit "context deadline exceeded"
  end.

Definition ErrUnknownCommand : goerror := Sentinel UnknownCommand.
Definition ErrUnknownResponse : goerror := Sentinel UnknownResponse.
Definition ErrUnexpectedResponse : goerror := Sentinel UnexpectedResponse.
Definition ErrScanFileSizeLimitExceeded : goerror := Sentinel ScanFileSizeLimitExceeded.
Definition ErrVirusFound : goerror := Sentinel VirusFound.
Definition io_EOF : goerror := Sentinel EOF.

(** The method [Error()]. *)
Fixpoint Error (e : goerror) : bytes :=
  match e with
  | Sentinel s => sentinel_text s
  | External _ msg => msg
  | Wrapf pre w post => pre ++ Error w ++ post
  | Plainf msg => msg
  end.

(** The chain that [Unwrap] walks, starting with the error itself. *)
Fixpoint chain (e : goerror) : list goerror :=
  e :: match e with
       | Wrapf _ w _ => chain w
       | _ => []
       end.

(** [errors.Is(err, target)] for a sentinel target (every target of this
    program is one): some error of the chain is that very value. *)
Fixpoint errors_Is (err : goerror) (target : sentinel) : bool :=
  match err with
  | Sentinel s => sentinel_eqb s target
  | External _ _ => false
  | Wrapf _ w _ => errors_Is w target
  | Plainf _ => false
  end.

(** [isNetError] of controllers/errors.go: [errors.As(err, &net.Error)],
    some error of the chain implements [net.Error] (of the sentinels,
    [context.DeadlineExceeded] does: it has [Timeout] and [Temporary]). *)
Fixpoint isNetError (err : goerror) : bool :=
  match err with
  | Sentinel s => sentinel_eqb s DeadlineExceeded
  | External isnet _ => isnet
  | Wrapf _ w _ => isNetError w
  | Plainf _ => false
  end.

(** [err == io.EOF]. *)
Definition is_EOF (e : goerror) : bool :=
  match e with
  | Sentinel EOF => true
  | _ => false
  end.

(** The verb [%d] on an [int64]. *)
Definition fmt_d (z : Z) : bytes :=
  list_byte_of_string (NilZero.string_of_int (Z.to_int z)).

(* ===================================================================== *)
(** ** Commands and responses (commands.go, responses.go) *)
(* ===================================================================== *)

Definition Command := bytes.
Definition Response := bytes.

Definition CmdPing : Command := lit "zPING" ++ [NUL].
Definition CmdVersion : Command := lit "zVERSION" ++ [NUL].
Definition CmdReload : Command := lit "zRELOAD" ++ [NUL].
Definition CmdInstream : Command := lit "zINSTREAM" ++ [NUL].
Definition CmdStats : Command := lit "zSTATS" ++ [NUL].
Definition CmdVersionCommands : Command := lit "nVERSIONCOMMANDS" ++ [LF].
Definition CmdShutdown : Command := lit "zSHUTDOWN" ++ [NUL].

Definition RespPing : Response := lit "PONG".
Definition RespReload : Response := lit "RELOADING".
Definition RespScan : Response := lit "stream: OK".
Definition RespErrUnknownCommand : Response := lit "UNKNOWN COMMAND".
Definition RespErrScanFileSizeLimitExceeded : Response :=
  lit "INSTREAM size limit exceeded. ERROR".

(* ===================================================================== *)
(** ** The connection, the content reader and [bufio] *)
(* ===================================================================== *)

(** One TCP connection as the client sees it during one operation.
    [sent] is what reached the transport so far.  [wroom] tells how the
    transport takes writes: [None] takes everything, [Some (n, e)] takes [n]
    more bytes and then fails with [e].  [incoming] is what the daemon sends
    back during the operation, followed by [rstop]: [io.EOF] when the daemon
    closes the connection, another error when reading fails.  An operation
    reads its reply once, through a [bufio.Reader] of its own, so reading
    leaves the record as it is. *)
Record Conn : Type := mkConn {
  sent : bytes;
  wroom : option (nat * goerror);
  incoming : bytes;
  rstop : goerror;
  closed : bool
}.

(** The content handed to [InStream]: an [io.Reader] that yields [content]
    and then [cstop], [io.EOF] at a regular end. *)
Record Reader : Type := mkReader {
  content : bytes;
  cstop : goerror
}.

(** [conn.Write(p)]: the number of bytes written and the error, if any. *)
Definition conn_Write (p : bytes) (c : Conn) : (nat * option goerror) * Conn :=
  match wroom c with
  | None =>
    ((length p, None),
     mkConn (sent c ++ p) None (incoming c) (rstop c) (closed c))
  | Some (n, e) =>
    if (length p <=? n)%nat then
      ((length p, None),
       mkConn (sent c ++ p) (Some ((n - length p)%nat, e))
              (incoming c) (rstop c) (closed c))
    else
      ((n, Some e),
       mkConn (sent c ++ firstn n p) (Some (0%nat, e))
              (incoming c) (rstop c) (closed c))
  end.

(** [conn.Close()]. *)
Definition conn_Close (c : Conn) : Conn :=
  mkConn (sent c) (wroom c) (incoming c) (rstop c) true.

(** The body of a Go function that works on the connection: a state
    transformer that either goes on with a value or has executed a
    [return]. *)
Inductive flow (R A : Type) : Type :=
| Next (a : A)
| Return (r : R).
Arguments Next {R A} a.
Arguments Return {R A} r.

Definition Go (R A : Type) : Type := Conn -> flow R A * Conn.

Definition ret {R A} (a : A) : Go R A := fun c => (Next a, c).

Definition bind {R A B} (m : Go R A) (k : A -> Go R B) : Go R B :=
  fun c =>
    match m c with
    | (Next a, c') => k a c'
    | (Return r, c') => (Return r, c')
    end.

(** The statement [return r]. *)
Definition return_ {R A} (r : R) : Go R A := fun c => (Return r, c).

(** A call that works on the connection and hands back a value. *)
Definition call {R A} (f : Conn -> A * Conn) : Go R A :=
  fun c => let '(a, c') := f c in (Next a, c').

(** A call that only looks at the connection. *)
Definition look {R A} (f : Conn -> A) : Go R A := fun c => (Next (f c), c).

(** [if err != nil { return f(err) }]. *)
Definition check {R} (err : option goerror) (f : goerror -> R) : Go R unit :=
  match err with
  | Some e => return_ (f e)
  | None => ret tt
  end.

Declare Scope go_scope.
Delimit Scope go_scope with go.
Notation "x <- m ;; k" := (bind m (fun x => k))
  (at level 61, m at next level, right associativity) : go_scope.
Notation "' pat <- m ;; k" := (bind m (fun x => let pat := x in k))
  (at level 61, pat pattern, m at next level, right associativity) : go_scope.
Notation "m ;; k" := (bind m (fun _ => k))
  (at level 61, right associativity) : go_scope.

(** Run a whole body: whichever way it ended, it returned a result. *)
Definition run {R} (m : Go R R) (c : Conn) : R * Conn :=
  match m c with
  | (Next r, c') => (r, c')
  | (Return r, c') => (r, c')
  end.

Module Bufio.

Definition defaultBufSize : nat := 4096.

(** [bufio.Writer]: the bytes buffered and the sticky error. *)
Record Writer : Type := mkWriter {
  buf : bytes;
  err : option goerror
}.

Definition NewWriter : Writer := mkWriter [] None.

Definition Available (b : Writer) : nat := (defaultBufSize - length (buf b))%nat.

(** [Writer.Flush]. *)
Definition Flush (b : Writer) (c : Conn) : (Writer * option goerror) * Conn :=
  match err b with
  | Some e => ((b, Some e), c)
  | None =>
    match buf b with
    | [] => ((b, None), c)
    | _ =>
      let '((n, werr), c') := conn_Write (buf b) c in
      let werr :=
        match werr with
        | None => if (n <? length (buf b))%nat then Some (Sentinel ShortWrite) else None
        | Some e => Some e
        end in
      match werr with
      | Some e => ((mkWriter (skipn n (buf b)) (Some e), Some e), c')
      | None => ((mkWriter [] None, None), c')
      end
    end
  end.

(** [Writer.Write(p)] when [p] fits what is left of the buffer, which holds
    for every write of the client (at most 17 bytes into a 4096-byte buffer
    that is flushed after each write): the bytes are buffered.  A larger [p]
    first tops up and flushes a buffer that holds bytes; what is left of [p]
    is buffered when it fits the empty buffer and goes to the connection
    directly when it does not. *)
Definition Write (b : Writer) (p : bytes) (c : Conn)
  : (Writer * option goerror) * Conn :=
  match err b with
  | Some e => ((b, Some e), c)
  | None =>
    if (length p <=? Available b)%nat then
      ((mkWriter (buf b ++ p) None, None), c)
    else
      let '((b1, e1), c1) :=
        match buf b with
        | [] => ((b, None), c)
        | _ => Flush (mkWriter (buf b ++ firstn (Available b) p) None) c
        end in
      let p1 := match buf b with [] => p | _ => skipn (Available b) p end in
      match e1 with
      | Some e => ((b1, Some e), c1)
      | None =>
        if (length p1 <=? defaultBufSize)%nat then
          ((mkWriter p1 None, None), c1)
        else
          let '((_, werr), c2) := conn_Write p1 c1 in
          ((mkWriter [] werr, werr), c2)
      end
  end.

(** [Reader.WriteTo(w)] on a fresh [bufio.Reader] over the content, [w]
    being a [bufio.Writer] over a TCP connection, to which both hand the copy
    over ([io.ReaderFrom]): the writer's sticky error
    comes first; otherwise the content is copied to the connection until
    the transport refuses a write or the content ends, and an end other
    than [io.EOF] is the error of the copy, which the writer keeps as its
    sticky error.  The writer is empty whenever the client calls this (it
    has just been flushed); were bytes still buffered, they would reach the
    transport ahead of the content. *)
Definition WriteTo (r : Reader) (b : Writer) (c : Conn)
  : (Writer * option goerror) * Conn :=
  match err b with
  | Some e => ((b, Some e), c)
  | None =>
    let '((b0, e0), c0) := Flush b c in
    match e0 with
    | Some e => ((b0, Some e), c0)
    | None =>
      let '((_, werr), c1) := conn_Write (content r) c0 in
      match werr with
      | Some e => ((mkWriter [] (Some e), Some e), c1)
      | None =>
        if is_EOF (cstop r) then ((b0, None), c1)
        else ((mkWriter [] (Some (cstop r)), Some (cstop r)), c1)
      end
    end
  end.

(** [Reader.ReadBytes(delim)] on a fresh [bufio.Reader] over the
    connection: the bytes up to and including the first [delim]; without
    a [delim], everything that arrived together with the error that ended
    the stream. *)
Fixpoint readUntil (delim : byte) (data : bytes) : bytes * bool :=
  match data with
  | [] => ([], false)
  | x :: rest =>
    if Byte.eqb x delim then ([x], true)
    else let '(l, found) := readUntil delim rest in (x :: l, found)
  end.

Definition ReadBytes (delim : byte) (c : Conn) : bytes * option goerror :=
  let '(l, found) := readUntil delim (incoming c) in
  if found then (l, None) else (l, Some (rstop c)).

End Bufio.

(** [binary.BigEndian.PutUint32(b, v)]. *)
Definition PutUint32 (v : Z) : bytes :=
  [z2b (Z.shiftr v 24); z2b (Z.shiftr v 16); z2b (Z.shiftr v 8); z2b v].

(** The conversion [uint32(size)]. *)
Definition uint32 (z : Z) : Z := z mod 2 ^ 32.

(* ===================================================================== *)
(** ** The client (clamav.go) *)
(* ===================================================================== *)

(** What an operation returns: a byte slice that may be nil and an error
    that may be nil. *)
Definition result : Type := option bytes * option goerror.

(** A possibly nil slice read as a byte sequence ([len(nil) == 0]). *)
Definition slice (p : option bytes) : bytes :=
  match p with
  | Some b => b
  | None => []
  end.

Record Client : Type := mkClient {
  address : bytes;
  network : bytes
}.

(** The outcome of [c.dialer.DialContext(ctx, c.network, c.address)]. *)
Definition DialResult : Type := goerror + Conn.

Module Clamav.
Import GoBytes EqualFoldImpl.

Local Open Scope go_scope.

(** The ["%s/%s"] of the messages, for [c.network] and [c.address]. *)
Definition endpoint (c : Client) : bytes := network c ++ lit "/" ++ address c.

Definition wrapTo (what : string) (c : Client) (e : goerror) : goerror :=
  Wrapf (lit what ++ endpoint c ++ lit ": ") e [].

(** [parseResponse]. *)
Definition parseResponse (msg : bytes) : option goerror :=
  if EqualFold msg RespErrScanFileSizeLimitExceeded then
    Some ErrScanFileSizeLimitExceeded
  else if HasPrefix msg (lit "stream: ") && HasSuffix msg (lit "FOUND") then
    Some ErrVirusFound
  else if Equal msg RespErrUnknownCommand then
    Some ErrUnknownCommand
  else None.

(** [readResponse]. *)
Definition readResponse (c : Client) (conn : Conn) : result :=
  let '(resp, err) := Bufio.ReadBytes NUL conn in
  match err with
  | Some e =>
    if negb (is_EOF e) then
      (None, Some (wrapTo "error while reading response from " c e))
    else (Some (TrimSuffix resp [NUL]), None)
  | None => (Some (TrimSuffix resp [NUL]), None)
  end.

(** [SendCommand]. *)
Definition SendCommand (c : Client) (cmd : Command) (conn : Conn) : result * Conn :=
  run (let writer := Bufio.NewWriter in
       '(writer, err) <- call (Bufio.Write writer cmd) ;;
       check err (fun e => (None, Some (wrapTo "error while writing command to " c e))) ;;
       '(writer, err) <- call (Bufio.Flush writer) ;;
       check err (fun e => (None, Some (wrapTo "error while flushing command to " c e))) ;;
       '(resp, err) <- look (readResponse c) ;;
       check err (fun e => (None, Some e)) ;;
       return_ (resp, None)) conn.

(** The frame of every operation: dial, [defer conn.Close()], the body.
    The second component is the connection as the operation leaves it,
    when there was one. *)
Definition dialed {R} (d : DialResult) (fail : goerror -> R) (body : Go R R)
  : R * option Conn :=
  match d with
  | inl e => (fail e, None)
  | inr conn => let '(r, conn') := run body conn in (r, Some (conn_Close conn'))
  end.

Definition connectFailed (e : goerror) : goerror :=
  Wrapf (lit "failed to connect to clamav: ") e [].
Definition sendFailed (e : goerror) : goerror :=
  Wrapf (lit "error while sending command: ") e [].
Definition fromClamav (e : goerror) : goerror :=
  Wrapf (lit "error from clamav: ") e [].

(** [Ping], [Version], [Stats] and [VersionCommands] have the same body,
    each with its own command. *)
Definition query (cmd : Command) (c : Client) (d : DialResult) : result * option Conn :=
  dialed d (fun e => (None, Some (connectFailed e)))
    ('(resp, err) <- call (SendCommand c cmd) ;;
     check err (fun e => (None, Some (sendFailed e))) ;;
     check (parseResponse (slice resp)) (fun e => (None, Some (fromClamav e))) ;;
     return_ (resp, None)).

Definition Ping : Client -> DialResult -> result * option Conn := query CmdPing.
Definition Version : Client -> DialResult -> result * option Conn := query CmdVersion.
Definition Stats : Client -> DialResult -> result * option Conn := query CmdStats.
Definition VersionCommands : Client -> DialResult -> result * option Conn :=
  query CmdVersionCommands.

(** [Reload]. *)
Definition Reload (c : Client) (d : DialResult) : option goerror * option Conn :=
  dialed d (fun e => Some (connectFailed e))
    ('(resp, err) <- call (SendCommand c CmdReload) ;;
     check err (fun e => Some (sendFailed e)) ;;
     check (parseResponse (slice resp)) (fun e => Some (fromClamav e)) ;;
     (if negb (Equal (slice resp) RespReload) then
        return_ (Some (Wrapf (lit "error from clamav: ") ErrUnexpectedResponse
                             (lit ". Expected " ++ RespReload
                              ++ lit " but got " ++ slice resp)))
      else ret tt) ;;
     return_ None).

(** [Shutdown]. *)
Definition Shutdown (c : Client) (d : DialResult) : option goerror * option Conn :=
  dialed d (fun e => Some (connectFailed e))
    ('(_, err) <- call (SendCommand c CmdShutdown) ;;
     check err (fun e => Some (sendFailed e)) ;;
     return_ None).

(** [InStream]. *)
Definition InStream (c : Client) (d : DialResult) (r : Reader) (size : Z)
  : result * option Conn :=
  dialed d (fun e => (None, Some (wrapTo "error while dialing " c e)))
    (let writer := Bufio.NewWriter in
     (* Start scan command. *)
     '(writer, err) <- call (Bufio.Write writer CmdInstream) ;;
     check err (fun e => (None, Some (wrapTo "error while writing command to " c e))) ;;
     '(writer, err) <- call (Bufio.Flush writer) ;;
     check err (fun e => (None, Some (wrapTo "error while flushing command to " c e))) ;;
     (* The size, a uint32 in network byte order. *)
     b <- (if (0 <? size) && (size <=? 4294967295) then
             ret (PutUint32 (uint32 size))
           else
             return_ (None, Some (Plainf (lit "file size " ++ fmt_d size
                                          ++ lit " exceeds maximum allowed size")))) ;;
     '(writer, err) <- call (Bufio.Write writer b) ;;
     check err (fun e => (None, Some (wrapTo "error while writing data length to " c e))) ;;
     '(writer, err) <- call (Bufio.Flush writer) ;;
     check err (fun e => (None, Some (wrapTo "error while flushing data length to " c e))) ;;
     (* Streaming the data. *)
     '(writer, err) <- call (Bufio.WriteTo r writer) ;;
     match err with
     | Some err =>
       '(resp, e) <- look (readResponse c) ;;
       check e (fun _ => (None, Some (wrapTo "error while streaming content to " c err))) ;;
       match parseResponse (slice resp) with
       | Some perr =>
         if errors_Is perr ScanFileSizeLimitExceeded then return_ (None, Some perr)
         else return_ (None, Some (fromClamav perr))
       | None =>
         return_ (resp, Some (wrapTo "error while streaming content to " c err))
       end
     | None =>
       (* Sending 4 bytes to signal the end of the transfer. *)
       '(writer, err) <- call (Bufio.Write writer [NUL; NUL; NUL; NUL]) ;;
       check err (fun e => (None, Some (wrapTo "error while writing end of transfer signal to " c e))) ;;
       '(writer, err) <- call (Bufio.Flush writer) ;;
       check err (fun e => (None, Some (wrapTo "error while flushing end of transfer signal to " c e))) ;;
       '(resp, err) <- look (readResponse c) ;;
       check err (fun e => (None, Some e)) ;;
       match parseResponse (slice resp) with
       | Some perr =>
         if errors_Is perr VirusFound then return_ (resp, Some perr)
         else return_ (None, Some (fromClamav perr))
       | None => return_ (resp, None)
       end
     end).

(** [FreshClam].  [ctxErr] is [ctx.Err()] once the child process is over;
    [output] and [err] are what [cmd.CombinedOutput()] returned. *)
Definition FreshClam (ctxErr : option goerror) (output : option bytes)
           (err : option goerror) : result :=
  match err with
  | Some e =>
    match ctxErr with
    | Some ce => (None, Some (Wrapf (lit "freshclam command cancelled: ") ce []))
    | None =>
      let outputStr := slice output in
      if Contains outputStr (lit "Database updated")
         || Contains outputStr (lit "up to date")
         || Contains outputStr (lit "Your ClamAV installation is OUTDATED")
      then (output, None)
      else (output, Some (Wrapf (lit "freshclam command failed: ") e []))
    end
  | None => (output, None)
  end.

End Clamav.

(* ===================================================================== *)
(** ** The scan handler (controllers/instream.go) *)
(* ===================================================================== *)

Module Controllers.
Import GoBytes.

(** [parseSignature]. *)
Definition parseSignature (msg : bytes) : bytes :=
  TrimLeft (TrimRight msg (lit " FOUND")) (lit "stream: ").

Record InStreamResponse : Type := mkInStreamResponse {
  Status : bytes;
  Msg : bytes;
  Signature : bytes;
  VirusFoundField : bool
}.

(** What [Handler.InStream] makes of the client's answer: the JSON body to
    send, or the error handed to [SetErrorResponse]. *)
Definition respond (res : result) : InStreamResponse + goerror :=
  match res with
  | (inStream, Some err) =>
    if errors_Is err VirusFound then
      inl (mkInStreamResponse (lit "error") (Error ErrVirusFound)
                              (parseSignature (slice inStream)) true)
    else inr err
  | (_, None) =>
    inl (mkInStreamResponse (lit "noerror") RespScan [] false)
  end.

End Controllers.

(* ===================================================================== *)
(** ** Notions the properties are stated with *)
(* ===================================================================== *)

Module Fold.
Import Utf8.

(** The runes of a byte sequence read as UTF-8, an invalid byte counting as
    [RuneError]. *)
Equations? runes (s : bytes) : list Z by wf (length s) lt :=
  runes [] := [];
  runes (c :: tl) :=
    fst (DecodeRune (c :: tl)) :: runes (skipn (Nat.pred (snd (DecodeRune (c :: tl)))) tl).
Proof.
  rewrite length_skipn. lia.
Qed.

(** The least rune of the case-folding orbit of [r], for the orbits that
    meet ASCII: a lower-case ASCII letter folds to its upper case, the long
    s U+017F to [S], the Kelvin sign U+212A to [K]. *)
Definition foldKey (r : Z) : Z :=
  if (97 <=? r) && (r <=? 122) then r - 32
  else if r =? 0x017F then 83
  else if r =? 0x212A then 75
  else r.

(** Equality up to letter case: the two sequences have the same runes up to
    simple case folding. *)
Definition foldEqual (s t : bytes) : Prop :=
  map foldKey (runes s) = map foldKey (runes t).

Definition isASCII (t : bytes) : Prop := Forall (fun b => b2z b < 128) t.

(** A test that holds of two lists position by position. *)
Fixpoint all2 {A B} (f : A -> B -> bool) (l1 : list A) (l2 : list B) : bool :=
  match l1, l2 with
  | [], [] => true
  | x :: l1', y :: l2' => f x y && all2 f l1' l2'
  | _, _ => false
  end.

End Fold.

(** The transport takes [n] more bytes without failing. *)
Definition accepts (n : nat) (conn : Conn) : Prop :=
  match wroom conn with
  | None => True
  | Some (k, _) => (n <= k)%nat
  end.

(** The transport fails with [e] before it has taken [n] more bytes. *)
Definition refuses (n : nat) (e : goerror) (conn : Conn) : Prop :=
  exists k, wroom conn = Some (k, e) /\ (k < n)%nat.

(** The connection once [p] has been written to it. *)
Definition pushed (p : bytes) (conn : Conn) : Conn :=
  mkConn (sent conn ++ p)
         (match wroom conn with
          | None => None
          | Some (k, e) => Some ((k - length p)%nat, e)
          end)
         (incoming conn) (rstop conn) (closed conn).

(** The upload of [r] goes through: the transport takes the 14 bytes of the
    command and the length field, the content and the 4 bytes of the end
    marker, and the content ends regularly. *)
Definition copySucceeds (conn : Conn) (r : Reader) : Prop :=
  accepts (14 + length (content r) + 4) conn /\ cstop r = io_EOF.

(** The upload of [r] fails with [ce] while the content is copied: the
    transport takes the command and the length field but not all of the
    content, or it takes the content and the reader ends with an error. *)
Definition copyFails (conn : Conn) (r : Reader) (ce : goerror) : Prop :=
  (accepts 14 conn /\ refuses (14 + length (content r)) ce conn)
  \/ (accepts (14 + length (content r)) conn /\ cstop r = ce /\ is_EOF ce = false).

(** What [InStream] returns once the content has been copied and the end
    marker sent: lines 250 to 263 of clamav.go. *)
Definition answered (c : Client) (conn : Conn) : result :=
  match Clamav.readResponse c conn with
  | (_, Some e) => (None, Some e)
  | (resp, None) =>
    match Clamav.parseResponse (slice resp) with
    | Some perr =>
      if errors_Is perr VirusFound then (resp, Some perr)
      else (None, Some (Clamav.fromClamav perr))
    | None => (resp, None)
    end
  end.

(** What [InStream] returns once the copy has failed with [ce]: lines 227 to
    238 of clamav.go. *)
Definition recovered (c : Client) (conn : Conn) (ce : goerror) : result :=
  match Clamav.readResponse c conn with
  | (_, Some _) => (None, Some (Clamav.wrapTo "error while streaming content to " c ce))
  | (resp, None) =>
    match Clamav.parseResponse (slice resp) with
    | Some perr =>
      if errors_Is perr ScanFileSizeLimitExceeded then (None, Some perr)
      else (None, Some (Clamav.fromClamav perr))
    | None => (resp, Some (Clamav.wrapTo "error while streaming content to " c ce))
    end
  end.

(** The terminator a command ends with, which the daemon echoes in its
    reply (commands.go). *)
Definition terminator (cmd : Command) : byte := last cmd NUL.

(** The bytes of [data] before the first [delim], all of them when there is
    none. *)
Fixpoint before (delim : byte) (data : bytes) : bytes :=
  match data with
  | [] => []
  | x :: rest => if Byte.eqb x delim then [] else x :: before delim rest
  end.

(** The fixed-response operations, and the error each returns. *)
Inductive operation : Type :=
| OpPing | OpVersion | OpReload | OpStats | OpVersionCommands | OpShutdown.

Definition commandOf (op : operation) : Command :=
  match op with
  | OpPing => CmdPing
  | OpVersion => CmdVersion
  | OpReload => CmdReload
  | OpStats => CmdStats
  | OpVersionCommands => CmdVersionCommands
  | OpShutdown => CmdShutdown
  end.

Definition errorOf (op : operation) (c : Client) (d : DialResult) : option goerror :=
  match op with
  | OpPing => snd (fst (Clamav.Ping c d))
  | OpVersion => snd (fst (Clamav.Version c d))
  | OpReload => fst (Clamav.Reload c d)
  | OpStats => snd (fst (Clamav.Stats c d))
  | OpVersionCommands => snd (fst (Clamav.VersionCommands c d))
  | OpShutdown => fst (Clamav.Shutdown c d)
  end.

(** Sample environments. *)
Definition tcp : Client := mkClient (lit "clamav:3310") (lit "tcp").
Definition goodConn (reply : bytes) : Conn := mkConn [] None reply io_EOF false.
Definition brokenPipe : goerror := External true (lit "write: broken pipe").

(* ===================================================================== *)
(** ** The HTTP layer (controllers/errors.go, auth.go and the handlers) *)
(* ===================================================================== *)

Module Http.

Definition StatusOK : Z := 200.
Definition StatusBadRequest : Z := 400.
Definition StatusUnauthorized : Z := 401.
Definition StatusInternalServerError : Z := 500.
Definition StatusBadGateway : Z := 502.

(** What a middleware reads of a request: [r.URL.Path] and
    [r.Header.Get]. *)
Record Request : Type := mkRequest {
  URLPath : bytes;
  HeaderGet : bytes -> bytes
}.

(** What a middleware has written when it answers itself: the status, the
    headers it set, in order, and the body. *)
Record Response : Type := mkResponse {
  StatusCode : Z;
  Headers : list (bytes * bytes);
  Body : bytes
}.

(** An [http.Handler], by what it answers. *)
Definition Handler : Type := Request -> Response.

End Http.

Module Auth.
Import GoBytes Http.

Definition ContentTypeApplicationJSON : bytes := lit "application/json".

(** The double quote of the JSON text. *)
Definition dq : byte := "034"%byte.

(** [constantTimeEquals]. *)
Definition constantTimeEquals (a b : bytes) : bool :=
  if negb (length a =? length b)%nat then false
  else
    let result :=
        fold_left (fun result xy => Z.lor result (Z.lxor (b2z (fst xy)) (b2z (snd xy))))
                  (combine a b) 0 in
    result =? 0.

(** [writeAPIKeyErrorResponse]. *)
Definition writeAPIKeyErrorResponse (message : bytes) : Response :=
  mkResponse StatusUnauthorized
             [(lit "Content-Type", ContentTypeApplicationJSON);
              (lit "WWW-Authenticate", lit "API-Key")]
             (lit "{" ++ [dq] ++ lit "status" ++ [dq] ++ lit ":"
              ++ [dq] ++ lit "error" ++ [dq] ++ lit ","
              ++ [dq] ++ lit "msg" ++ [dq] ++ lit ":"
              ++ [dq] ++ message ++ [dq] ++ lit "}").

(** [APIKeyAuth]. *)
Definition APIKeyAuth (apiKey headerName : bytes) (next : Handler) : Handler :=
  fun r =>
    match apiKey with
    | [] => next r
    | _ =>
      let providedKey := HeaderGet r headerName in
      match providedKey with
      | [] => writeAPIKeyErrorResponse (lit "API key required")
      | _ =>
        if negb (constantTimeEquals providedKey apiKey) then
          writeAPIKeyErrorResponse (lit "Invalid API key")
        else next r
      end
    end.

Definition publicPaths : list bytes :=
  [lit "/rest/v1/ping"; lit "/health"; lit "/readiness"; lit "/liveness"].

(** [IsPublicEndpoint]. *)
Definition IsPublicEndpoint (path : bytes) : bool :=
  existsb (fun publicPath => HasPrefix path publicPath) publicPaths.

(** [ConditionalAPIKeyAuth]. *)
Definition ConditionalAPIKeyAuth (apiKey headerName : bytes) (next : Handler)
  : Handler :=
  fun r =>
    if IsPublicEndpoint (URLPath r) then next r
    else APIKeyAuth apiKey headerName next r.

End Auth.

Module Handlers.
Import GoBytes Http.

(** The errors a handler passes to [SetErrorResponse]: what the client
    returned, or what parsing the upload returned, wrapped by
    [fmt.Errorf("%w: %w", ErrFormFile, err)] or the same with
    [ErrOpenFileHeaders]. *)
Inductive handlerError : Type :=
| FormFileError (e : goerror)
| OpenFileHeadersError (e : goerror)
| ClientError (e : goerror).

(** The method [Error()] of those. *)
Definition handlerErrorText (h : handlerError) : bytes :=
  match h with
  | FormFileError e => lit "failed to parse file" ++ lit ": " ++ Error e
  | OpenFileHeadersError e =>
    lit "failed to open multipart file headers" ++ lit ": " ++ Error e
  | ClientError e => Error e
  end.

(** [isNetError] on those: neither [ErrFormFile] nor [ErrOpenFileHeaders] is
    a [net.Error], so the answer is the one of the other wrapped error. *)
Definition isNetErrorH (h : handlerError) : bool :=
  match h with
  | FormFileError e | OpenFileHeadersError e | ClientError e => isNetError e
  end.

(** [errors.Is(err, ErrFormFile) || errors.Is(err, ErrOpenFileHeaders)]. *)
Definition isFormError (h : handlerError) : bool :=
  match h with
  | FormFileError _ | OpenFileHeadersError _ => true
  | ClientError _ => false
  end.

(** [errors.Is(err, target)] for a sentinel of [internal/clamav], reached
    only for what the client returned. *)
Definition errorsIsH (h : handlerError) (target : sentinel) : bool :=
  match h with
  | FormFileError e | OpenFileHeadersError e | ClientError e => errors_Is e target
  end.

(** [ErrorResponse] and [NewErrorResponse]. *)
Record ErrorResponse : Type := mkErrorResponse {
  ErrStatus : bytes;
  ErrMsg : bytes
}.

Definition NewErrorResponse (msg : bytes) : ErrorResponse :=
  mkErrorResponse (lit "error") msg.

(** The JSON objects the handlers marshal.  Each is a struct of strings and
    booleans, which [json.Marshal] always accepts, so the branches on a
    marshalling error are never taken. *)
Inductive payload : Type :=
| ErrorBody (e : ErrorResponse)
| ScanBody (s : Controllers.InStreamResponse)
| StatusBody (status : bytes)              (* ReloadResponse, ShutdownResponse *)
| PingBody (ping : bytes)
| VersionBody (version : bytes)
| FreshClamBody (status message output : bytes).

(** What a handler answers: the status code and the object marshalled into
    the body, the content type being [application/json]. *)
Definition reply : Type := Z * payload.

(** [SetErrorResponse]; [None] when it is given a nil error and writes
    nothing. *)
Definition SetErrorResponse (err : option handlerError) : option reply :=
  match err with
  | None => None
  | Some err =>
    if isNetErrorH err then
      Some (StatusBadGateway,
            ErrorBody (NewErrorResponse
                         (lit "something wrong happened while communicating with clamav")))
    else if isFormError err then
      Some (StatusBadRequest,
            ErrorBody (NewErrorResponse (lit "bad request: " ++ handlerErrorText err)))
    else if errorsIsH err UnknownCommand then
      Some (StatusInternalServerError,
            ErrorBody (NewErrorResponse (lit "unknown command sent to clamav")))
    else if errorsIsH err UnknownResponse then
      Some (StatusInternalServerError,
            ErrorBody (NewErrorResponse (lit "unknown response from clamav")))
    else if errorsIsH err UnexpectedResponse then
      Some (StatusInternalServerError,
            ErrorBody (NewErrorResponse (lit "unexpected response from clamav")))
    else if errorsIsH err ScanFileSizeLimitExceeded then
      Some (StatusInternalServerError,
            ErrorBody (NewErrorResponse (lit "clamav: " ++ handlerErrorText err)))
    else
      Some (StatusInternalServerError,
            ErrorBody (NewErrorResponse (handlerErrorText err)))
  end.

(** A handler that has an error always has a reply for it. *)
Definition failWith (err : handlerError) : reply :=
  match SetErrorResponse (Some err) with
  | Some r => r
  | None => (StatusInternalServerError, ErrorBody (NewErrorResponse []))
  end.

(** [Handler.Ping], given what [h.Clamav.Ping] returned. *)
Definition Ping (res : result) : reply :=
  match res with
  | (_, Some err) => failWith (ClientError err)
  | (ping, None) => (StatusOK, PingBody (slice ping))
  end.

(** [Handler.Version], given what [h.Clamav.Version] returned. *)
Definition Version (res : result) : reply :=
  match res with
  | (_, Some err) => failWith (ClientError err)
  | (version, None) => (StatusOK, VersionBody (slice version))
  end.

(** [Handler.Reload], given what [h.Clamav.Reload] returned. *)
Definition Reload (err : option goerror) : reply :=
  match err with
  | Some err => failWith (ClientError err)
  | None => (StatusOK, StatusBody (lit "Reloading"))
  end.

(** [Handler.Shutdown], given what [h.Clamav.Shutdown] returned. *)
Definition Shutdown (err : option goerror) : reply :=
  match err with
  | Some err => failWith (ClientError err)
  | None => (StatusOK, StatusBody (lit "Shutting down"))
  end.

(** [Handler.FreshClam], given what [h.Clamav.FreshClam] returned. *)
Definition FreshClam (res : result) : reply :=
  match res with
  | (output, Some _) =>
    (StatusInternalServerError,
     FreshClamBody (lit "error") (lit "freshclam update failed") (slice output))
  | (output, None) =>
    (StatusOK,
     FreshClamBody (lit "success") (lit "virus definitions updated successfully")
                   (slice output))
  end.

(** [Handler.InStream].  [form] is what parsing the upload gave: the error
    of [r.FormFile], or the error of [hd.Open], or the opened file with
    [hd.Size]; [scan] is [h.Clamav.InStream]. *)
Definition InStream (scan : Reader -> Z -> result)
           (form : goerror + (goerror + Reader * Z)) : reply :=
  match form with
  | inl err => failWith (FormFileError err)
  | inr (inl err) => failWith (OpenFileHeadersError err)
  | inr (inr (f, size)) =>
    match Controllers.respond (scan f size) with
    | inl inStreamResp => (StatusOK, ScanBody inStreamResp)
    | inr err => failWith (ClientError err)
    end
  end.

End Handlers.

(* ===================================================================== *)
(** ** More notions for the properties *)
(* ===================================================================== *)

(** The number a 4-byte field denotes in network byte order. *)
Definition bigEndian (b : bytes) : Z :=
  fold_left (fun acc x => acc * 256 + b2z x) b 0.

(** The connection as a fixed-response operation leaves it. *)
Definition connOf (op : operation) (c : Client) (d : DialResult) : option Conn :=
  match op with
  | OpPing => snd (Clamav.Ping c d)
  | OpVersion => snd (Clamav.Version c d)
  | OpReload => snd (Clamav.Reload c d)
  | OpStats => snd (Clamav.Stats c d)
  | OpVersionCommands => snd (Clamav.VersionCommands c d)
  | OpShutdown => snd (Clamav.Shutdown c d)
  end.

(** The connection once the transport has refused [p] after [k] bytes. *)
Definition cut (k : nat) (e : goerror) (p : bytes) (conn : Conn) : Conn :=
  mkConn (sent conn ++ firstn k p) (Some (0%nat, e))
         (incoming conn) (rstop conn) (closed conn).

(** [sub] occurs in [s]. *)
Definition occursIn (sub s : bytes) : Prop := exists a b, s = a ++ sub ++ b.

(** Every byte of [s] belongs to the cutset. *)
Definition allIn (cutset s : bytes) : Prop :=
  Forall (fun b => GoBytes.inCutset cutset b = true) s.

(* ===================================================================== *)
(** * Properties *)
(* ===================================================================== *)

Example EqualFold_ex1 :
  EqualFoldImpl.EqualFold (lit "instream SIZE limit") (lit "INSTREAM size LIMIT") = true.
Proof. reflexivity. Qed.

Example EqualFold_ex2 :
  EqualFoldImpl.EqualFold
    ("I" :: "N" :: "197" :: "191" :: lit "TREAM")%byte (lit "INSTREAM") = true.
Proof. vm_compute. reflexivity. Qed.

Example ping_ex :
  Clamav.Ping tcp (inr (goodConn (lit "PONG" ++ [NUL])))
  = ((Some (lit "PONG"), None),
     Some (mkConn CmdPing None (lit "PONG" ++ [NUL]) io_EOF true)).
Proof. reflexivity. Qed.

Example instream_ex :
  fst (Clamav.InStream tcp (inr (goodConn (lit "stream: OK" ++ [NUL])))
                       (mkReader (lit "hello") io_EOF) 5)
  = (Some (lit "stream: OK"), None).
Proof. reflexivity. Qed.

(** ** Byte slices *)

Lemma b2z_range (b : byte) : 0 <= b2z b < 256.
Proof.
  unfold b2z. pose proof (Byte.to_N_bounded b). lia.
Qed.

Lemma bytes_eqb_eq (a b : bytes) : bytes_eqb a b = true <-> a = b.
Proof.
  revert b. induction a as [|x a IH]; intros [|y b]; simpl; split;
    try congruence; try reflexivity.
  - intros H. apply andb_true_iff in H as [Hxy Hab].
    apply Byte.byte_dec_bl in Hxy. apply IH in Hab. congruence.
  - intros H. injection H as -> ->.
    apply andb_true_iff. split; [apply Byte.byte_dec_lb; reflexivity|].
    apply IH. reflexivity.
Qed.


Lemma errors_Is_chain (e : goerror) (k : sentinel) :
  errors_Is e k = true <-> In (Sentinel k) (chain e).
Proof.
  induction e as [s|n m|pre w IH post|m]; simpl.
  - split.
    + intros H. left. destruct s, k; try discriminate; reflexivity.
    + intros [[= ->]|[]]. destruct k; reflexivity.
  - split; [discriminate|]. intros [[=]|[]].
  - rewrite IH. split; [auto|]. intros [[=]|H]; assumption.
  - split; [discriminate|]. intros [[=]|[]].
Qed.

Module GoBytesFacts.
Import GoBytes.

Lemma Equal_eq (a b : bytes) : Equal a b = true <-> a = b.
Proof. apply bytes_eqb_eq. Qed.

Lemma HasPrefix_iff (s p : bytes) :
  HasPrefix s p = true <-> exists r, s = p ++ r.
Proof.
  unfold HasPrefix. rewrite andb_true_iff, Equal_eq, Nat.leb_le. split.
  - intros [_ H]. exists (skipn (length p) s).
    rewrite <- H at 1. symmetry. apply firstn_skipn.
  - intros [r ->]. rewrite length_app. split; [lia|].
    rewrite firstn_app, Nat.sub_diag, firstn_all. simpl.
    apply app_nil_r.
Qed.

Lemma HasSuffix_iff (s x : bytes) :
  HasSuffix s x = true <-> exists r, s = r ++ x.
Proof.
  unfold HasSuffix. rewrite andb_true_iff, Equal_eq, Nat.leb_le. split.
  - intros [_ H]. exists (firstn (length s - length x) s).
    rewrite <- H at 2. symmetry. apply firstn_skipn.
  - intros [r ->]. rewrite length_app. split; [lia|].
    replace (length r + length x - length x)%nat with (length r + 0)%nat by lia.
    rewrite skipn_app, Nat.add_0_r, skipn_all.
    replace (length r - length r)%nat with 0%nat by lia. reflexivity.
Qed.

Lemma TrimSuffix_app (r x : bytes) : TrimSuffix (r ++ x) x = r.
Proof.
  unfold TrimSuffix.
  assert (H : HasSuffix (r ++ x) x = true) by (apply HasSuffix_iff; eauto).
  rewrite H, length_app.
  replace (length r + length x - length x)%nat with (length r + 0)%nat by lia.
  rewrite firstn_app, Nat.add_0_r, firstn_all.
  replace (length r - length r)%nat with 0%nat by lia.
  simpl. apply app_nil_r.
Qed.

Lemma TrimSuffix_none (s x : bytes) : HasSuffix s x = false -> TrimSuffix s x = s.
Proof. unfold TrimSuffix. intros ->. reflexivity. Qed.

End GoBytesFacts.

(** ** [bytes.EqualFold] against an ASCII literal *)

Module FoldFacts.
Import Utf8 Unicode EqualFoldImpl Fold.

Lemma DecodeRune_ascii (c : byte) (tl : bytes) :
  b2z c < 128 -> DecodeRune (c :: tl) = (b2z c, 1%nat).
Proof.
  intros H. unfold DecodeRune, first.
  destruct (Z.ltb_spec (b2z c) 128) as [_|]; [|lia].
  reflexivity.
Qed.

Lemma nextRune_DecodeRune (c : byte) (tl : bytes) :
  nextRune c tl
  = (fst (DecodeRune (c :: tl)), skipn (Nat.pred (snd (DecodeRune (c :: tl)))) tl).
Proof.
  unfold nextRune, RuneSelf.
  destruct (Z.ltb_spec (b2z c) 128) as [H|H].
  - rewrite DecodeRune_ascii by assumption. reflexivity.
  - destruct (DecodeRune (c :: tl)). reflexivity.
Qed.

Lemma runes_ascii (t : bytes) : isASCII t -> runes t = map b2z t.
Proof.
  induction 1 as [|c tl Hc _ IH]; simp runes; [reflexivity|].
  rewrite DecodeRune_ascii by assumption. simpl. rewrite IH. reflexivity.
Qed.

(** The loop compares the two sequences rune by rune. *)
Lemma hasUnicode_runes (s t : bytes) :
  hasUnicode s t = all2 runeStep (runes s) (runes t).
Proof.
  funelim (hasUnicode s t); simp runes.
  - destruct t; simp runes; reflexivity.
  - reflexivity.
  - simpl. rewrite !nextRune_DecodeRune in *. simpl in *.
    destruct (runeStep _ _); [|reflexivity]. simpl. auto.
Qed.

Lemma lor_below_128 (a b : Z) :
  0 <= a -> 0 <= b -> Z.lor a b < 128 -> a < 128 /\ b < 128.
Proof.
  intros Ha Hb Hor.
  pose proof (Z.log2_lor a b Ha Hb) as Hlog.
  assert (Hnn : 0 <= Z.lor a b) by (apply Z.lor_nonneg; lia).
  assert (Hlt : Z.log2 (Z.lor a b) < 7).
  { destruct (Z.eq_dec (Z.lor a b) 0) as [E|E]; [rewrite E; simpl; lia|].
    apply Z.log2_lt_pow2; [lia|]. simpl. lia. }
  split; apply Z.nle_gt; intros Hge.
  - assert (7 <= Z.log2 a) by (apply Z.log2_le_pow2; [lia|simpl; lia]). lia.
  - assert (7 <= Z.log2 b) by (apply Z.log2_le_pow2; [lia|simpl; lia]). lia.
Qed.

Lemma EqualFold_hasUnicode (s t : bytes) : EqualFold s t = hasUnicode s t.
Proof.
  revert t. induction s as [|c s IH]; intros t.
  - simpl. simp hasUnicode. destruct t; reflexivity.
  - destruct t as [|d t]; [simp hasUnicode; reflexivity|].
    cbn [EqualFold].
    destruct (Z.geb_spec (Z.lor (b2z c) (b2z d)) RuneSelf) as [Hor|Hor];
      [reflexivity|].
    destruct (lor_below_128 (b2z c) (b2z d)) as [Hc Hd];
      [apply b2z_range | apply b2z_range | exact Hor |].
    simp hasUnicode. unfold nextRune, RuneSelf.
    destruct (Z.ltb_spec (b2z c) 128) as [_|]; [|lia].
    destruct (Z.ltb_spec (b2z d) 128) as [_|]; [|lia].
    cbn [fst snd]. unfold runeStep, RuneSelf.
    destruct (Z.eqb_spec (b2z d) (b2z c)) as [E|E]; [apply IH|].
    destruct (Z.ltb_spec (b2z d) (b2z c)) as [L|L].
    + destruct (Z.ltb_spec (b2z c) 128) as [_|]; [|lia].
      rewrite IH. reflexivity.
    + destruct (Z.ltb_spec (b2z d) 128) as [_|]; [|lia].
      rewrite IH. reflexivity.
Qed.

Ltac split_tests :=
  repeat (match goal with
          | |- context [?x <? ?y] => destruct (Z.ltb_spec x y)
          | |- context [?x <=? ?y] => destruct (Z.leb_spec x y)
          | |- context [?x =? ?y] => destruct (Z.eqb_spec x y)
          | H : context [?x <? ?y] |- _ => destruct (Z.ltb_spec x y)
          | H : context [?x <=? ?y] |- _ => destruct (Z.leb_spec x y)
          | H : context [?x =? ?y] |- _ => destruct (Z.eqb_spec x y)
          end; cbn [andb orb negb] in *; try lia);
  try lia; try reflexivity; try discriminate.

Ltac fold_consts :=
  repeat first
    [ progress change (SimpleFold 75) with 107 in *
    | progress change (SimpleFold 83) with 115 in *
    | progress change (SimpleFold 107) with 8490 in *
    | progress change (SimpleFold 115) with 383 in *
    | progress change (SimpleFold 8490) with 75 in *
    | progress change (SimpleFold 383) with 83 in *
    | progress change (75 + 32) with 107 in *
    | progress change (83 + 32) with 115 in * ].

Lemma SimpleFold_upper (a : Z) : 65 <= a <= 90 -> SimpleFold a = a + 32.
Proof. intros. unfold SimpleFold, MaxRune. split_tests. Qed.

Lemma SimpleFold_lower (a : Z) :
  97 <= a <= 122 -> a <> 107 -> a <> 115 -> SimpleFold a = a - 32.
Proof. intros. unfold SimpleFold, MaxRune. split_tests. Qed.

Lemma SimpleFold_other (a : Z) :
  a < 128 -> ~ 65 <= a <= 90 -> ~ 97 <= a <= 122 -> SimpleFold a = a.
Proof. intros. unfold SimpleFold, MaxRune. split_tests. Qed.

(** Three steps are enough: when [foldWalk] hands back a rune, the loop
    condition [r != sr && r < tr] no longer holds. *)
Lemma foldWalk_exits (sr tr : Z) :
  let r := foldWalk 3 sr tr (SimpleFold sr) in
  negb (r =? sr) && (r <? tr) = false.
Proof.
  assert (Hcases : 65 <= sr <= 90 \/ sr = 107 \/ sr = 115
                   \/ (97 <= sr <= 122 /\ sr <> 107 /\ sr <> 115)
                   \/ sr = 383 \/ sr = 8490
                   \/ (~ 65 <= sr <= 90 /\ ~ 97 <= sr <= 122 /\ sr <> 383 /\ sr <> 8490))
    by lia.
  destruct Hcases as [Hu|[->|[->|[[Hl [H1 H2]]|[->|[->|[H1 [H2 [H3 H4]]]]]]]]].
  - rewrite SimpleFold_upper by assumption.
    destruct (Z.eq_dec sr 75) as [->|H75]; [|destruct (Z.eq_dec sr 83) as [->|H83]].
    + cbn [foldWalk]. fold_consts. split_tests.
    + cbn [foldWalk]. fold_consts. split_tests.
    + cbn [foldWalk].
      destruct (negb (sr + 32 =? sr) && (sr + 32 <? tr)) eqn:E; [|exact E].
      rewrite SimpleFold_lower by lia.
      replace (sr + 32 - 32) with sr by lia.
      rewrite Z.eqb_refl. cbn [negb andb]. rewrite Z.eqb_refl. reflexivity.
  - cbn [foldWalk]. fold_consts. split_tests.
  - cbn [foldWalk]. fold_consts. split_tests.
  - rewrite SimpleFold_lower by assumption. cbn [foldWalk].
    destruct (negb (sr - 32 =? sr) && (sr - 32 <? tr)) eqn:E; [|exact E].
    rewrite SimpleFold_upper by lia.
    replace (sr - 32 + 32) with sr by lia.
    rewrite Z.eqb_refl. cbn [negb andb]. rewrite Z.eqb_refl. reflexivity.
  - cbn [foldWalk]. fold_consts. split_tests.
  - cbn [foldWalk]. fold_consts. split_tests.
  - assert (Hfix : SimpleFold sr = sr)
      by (unfold SimpleFold, MaxRune; split_tests).
    rewrite Hfix. cbn [foldWalk]. rewrite Z.eqb_refl. cbn [negb andb]. rewrite Z.eqb_refl. reflexivity.
Qed.

(** Against an ASCII rune, one round of the loop decides equality of the
    fold keys. *)
Lemma runeStep_ascii (r a : Z) :
  0 <= a < 128 -> runeStep r a = (foldKey r =? foldKey a).
Proof.
  intros Ha. unfold runeStep, RuneSelf.
  destruct (Z.eqb_spec a r) as [->|Hne]; [symmetry; apply Z.eqb_refl|].
  destruct (Z.ltb_spec a r) as [Hlt|Hge].
  - (* the ASCII rune is the smaller one *)
    destruct (Z.ltb_spec r 128) as [Hr|Hr].
    + unfold foldKey. split_tests.
    + assert (Hcases : 65 <= a <= 90 \/ a = 107 \/ a = 115
                       \/ (97 <= a <= 122 /\ a <> 107 /\ a <> 115)
                       \/ (~ 65 <= a <= 90 /\ ~ 97 <= a <= 122)) by lia.
      destruct Hcases as [Hu|[->|[->|[[Hl [H1 H2]]|[H1 H2]]]]].
      * rewrite SimpleFold_upper by assumption.
        destruct (Z.eq_dec a 75) as [->|H75]; [|destruct (Z.eq_dec a 83) as [->|H83]].
        -- unfold foldKey. cbn [foldWalk]. fold_consts. split_tests.
        -- unfold foldKey. cbn [foldWalk]. fold_consts. split_tests.
        -- cbn [foldWalk].
           replace (negb (a + 32 =? a) && (a + 32 <? r)) with true
             by (symmetry; apply andb_true_iff; split;
                 [apply negb_true_iff, Z.eqb_neq; lia | apply Z.ltb_lt; lia]).
           rewrite SimpleFold_lower by lia.
           replace (a + 32 - 32) with a by lia.
           rewrite Z.eqb_refl. simpl. unfold foldKey. split_tests.
      * unfold foldKey. cbn [foldWalk]. fold_consts. split_tests.
      * unfold foldKey. cbn [foldWalk]. fold_consts. split_tests.
      * rewrite SimpleFold_lower by assumption.
        cbn [foldWalk].
        replace (negb (a - 32 =? a) && (a - 32 <? r)) with true
          by (symmetry; apply andb_true_iff; split;
              [apply negb_true_iff, Z.eqb_neq; lia | apply Z.ltb_lt; lia]).
        rewrite SimpleFold_upper by lia.
        replace (a - 32 + 32) with a by lia.
        rewrite Z.eqb_refl. simpl. unfold foldKey. split_tests.
      * rewrite SimpleFold_other by lia.
        cbn [foldWalk]. rewrite Z.eqb_refl. simpl. unfold foldKey. split_tests.
  - (* the ASCII rune is the larger one *)
    destruct (Z.ltb_spec a 128) as [_|]; [|lia].
    unfold foldKey. split_tests.
Qed.

Lemma all2_runeStep_ascii (l : list Z) (t : bytes) :
  isASCII t ->
  all2 runeStep l (map b2z t) = true <-> map foldKey l = map foldKey (map b2z t).
Proof.
  intros Ht. revert l. induction Ht as [|d t Hd _ IH]; intros [|r l]; simpl;
    split; try congruence; try reflexivity.
  - intros H. apply andb_true_iff in H as [Hr Hl].
    rewrite runeStep_ascii in Hr by (pose proof (b2z_range d); lia).
    apply Z.eqb_eq in Hr. apply IH in Hl. congruence.
  - intros H. injection H as Hr Hl. apply andb_true_iff. split.
    + rewrite runeStep_ascii by (pose proof (b2z_range d); lia).
      apply Z.eqb_eq. assumption.
    + apply IH. assumption.
Qed.

(** [bytes.EqualFold] against an ASCII sequence is equality up to letter
    case. *)
Lemma EqualFold_ascii (s t : bytes) :
  isASCII t -> EqualFold s t = true <-> foldEqual s t.
Proof.
  intros Ht. unfold foldEqual.
  rewrite EqualFold_hasUnicode, hasUnicode_runes, (runes_ascii t Ht).
  apply all2_runeStep_ascii. assumption.
Qed.

(** Between ASCII sequences, equality up to letter case is equality of the
    bytes put in upper case. *)
Lemma foldEqual_ascii (s t : bytes) :
  isASCII s -> isASCII t ->
  foldEqual s t
  <-> map (fun b => foldKey (b2z b)) s = map (fun b => foldKey (b2z b)) t.
Proof.
  intros Hs Ht. unfold foldEqual.
  rewrite (runes_ascii s Hs), (runes_ascii t Ht), !map_map. reflexivity.
Qed.

Lemma sizeLimit_literal_ascii : isASCII RespErrScanFileSizeLimitExceeded.
Proof. unfold isASCII. repeat constructor. Qed.

End FoldFacts.

(** ** The transport and [bufio] *)

Module TransportFacts.
Import Bufio.

Lemma conn_Write_ok (p : bytes) (conn : Conn) :
  accepts (length p) conn -> conn_Write p conn = ((length p, None), pushed p conn).
Proof.
  unfold accepts, conn_Write, pushed.
  destruct (wroom conn) as [[k e]|]; [|reflexivity].
  intros H. destruct (Nat.leb_spec (length p) k); [reflexivity|lia].
Qed.

Lemma conn_Write_refused (p : bytes) (conn : Conn) (e : goerror) :
  refuses (length p) e conn ->
  exists k conn',
    conn_Write p conn = ((k, Some e), conn')
    /\ incoming conn' = incoming conn /\ rstop conn' = rstop conn.
Proof.
  intros [k [Hw Hk]]. unfold conn_Write. rewrite Hw.
  destruct (Nat.leb_spec (length p) k); [lia|].
  eexists _, _. split; [reflexivity|]. split; reflexivity.
Qed.

Lemma accepts_le (n m : nat) (conn : Conn) :
  (m <= n)%nat -> accepts n conn -> accepts m conn.
Proof.
  unfold accepts. destruct (wroom conn) as [[k e]|]; [lia|trivial].
Qed.

Lemma accepts_pushed (p : bytes) (k : nat) (conn : Conn) :
  accepts (length p + k) conn -> accepts k (pushed p conn).
Proof.
  unfold accepts, pushed. simpl.
  destruct (wroom conn) as [[n e]|]; [lia|trivial].
Qed.

Lemma refuses_pushed (p : bytes) (n : nat) (e : goerror) (conn : Conn) :
  accepts (length p) conn -> refuses (length p + n) e conn ->
  refuses n e (pushed p conn).
Proof.
  unfold accepts, refuses, pushed. intros Ha [k [Hw Hk]]. simpl.
  rewrite Hw in *. exists (k - length p)%nat. split; [reflexivity|lia].
Qed.

Lemma Write_fits (p : bytes) (conn : Conn) :
  (length p <= defaultBufSize)%nat ->
  Write NewWriter p conn = ((mkWriter p None, None), conn).
Proof.
  intros H. unfold Write, NewWriter, Available. cbn [err buf length].
  rewrite Nat.sub_0_r.
  destruct (Nat.leb_spec (length p) defaultBufSize); [reflexivity|lia].
Qed.

Lemma Flush_ok (p : bytes) (conn : Conn) :
  p <> [] -> accepts (length p) conn ->
  Flush (mkWriter p None) conn = ((NewWriter, None), pushed p conn).
Proof.
  intros Hp Ha. unfold Flush. cbn [err buf].
  destruct p as [|x p]; [contradiction|].
  rewrite conn_Write_ok by assumption.
  rewrite Nat.ltb_irrefl. reflexivity.
Qed.

Lemma Flush_empty (conn : Conn) : Flush NewWriter conn = ((NewWriter, None), conn).
Proof. reflexivity. Qed.

Lemma WriteTo_ok (r : Reader) (conn : Conn) :
  accepts (length (content r)) conn -> cstop r = io_EOF ->
  WriteTo r NewWriter conn = ((NewWriter, None), pushed (content r) conn).
Proof.
  intros Ha He. unfold WriteTo. cbn [err NewWriter]. rewrite Flush_empty.
  rewrite conn_Write_ok by assumption. rewrite He. reflexivity.
Qed.

Lemma WriteTo_refused (r : Reader) (conn : Conn) (ce : goerror) :
  refuses (length (content r)) ce conn ->
  exists w conn',
    WriteTo r NewWriter conn = ((w, Some ce), conn')
    /\ incoming conn' = incoming conn /\ rstop conn' = rstop conn.
Proof.
  intros Hr. unfold WriteTo. cbn [err NewWriter]. rewrite Flush_empty.
  destruct (conn_Write_refused _ _ _ Hr) as [k [conn' [Hw [Hi Hs]]]].
  rewrite Hw. eexists _, _. split; [reflexivity|]. split; assumption.
Qed.

Lemma WriteTo_reader_error (r : Reader) (conn : Conn) :
  accepts (length (content r)) conn -> is_EOF (cstop r) = false ->
  WriteTo r NewWriter conn
  = ((mkWriter [] (Some (cstop r)), Some (cstop r)), pushed (content r) conn).
Proof.
  intros Ha He. unfold WriteTo. cbn [err NewWriter]. rewrite Flush_empty.
  rewrite conn_Write_ok by assumption. rewrite He. reflexivity.
Qed.

Lemma readUntil_found (delim : byte) (data : bytes) :
  In delim data -> readUntil delim data = (before delim data ++ [delim], true).
Proof.
  induction data as [|x rest IH]; [contradiction|].
  intros I. cbn [readUntil before].
  destruct (Byte.eqb x delim) eqn:E.
  - apply Byte.byte_dec_bl in E. subst x. reflexivity.
  - destruct I as [->|I]; [rewrite (Byte.byte_dec_lb eq_refl) in E; discriminate|].
    rewrite IH by assumption. reflexivity.
Qed.

Lemma readUntil_absent (delim : byte) (data : bytes) :
  ~ In delim data -> readUntil delim data = (data, false).
Proof.
  induction data as [|x rest IH]; [reflexivity|].
  intros N. cbn [readUntil].
  destruct (Byte.eqb x delim) eqn:E.
  - apply Byte.byte_dec_bl in E. exfalso. apply N. left. assumption.
  - rewrite IH; [reflexivity|]. intros I. apply N. right. assumption.
Qed.

Lemma before_absent (delim : byte) (data : bytes) :
  ~ In delim data -> before delim data = data.
Proof.
  induction data as [|x rest IH]; [reflexivity|].
  intros N. cbn [before].
  destruct (Byte.eqb x delim) eqn:E.
  - apply Byte.byte_dec_bl in E. exfalso. apply N. left. assumption.
  - rewrite IH; [reflexivity|]. intros I. apply N. right. assumption.
Qed.

End TransportFacts.

(** ** The exchange *)

Module ClientFacts.
Import GoBytes GoBytesFacts Bufio TransportFacts Clamav.

Lemma readResponse_same (c : Client) (conn conn' : Conn) :
  incoming conn' = incoming conn -> rstop conn' = rstop conn ->
  readResponse c conn' = readResponse c conn.
Proof.
  intros Hi Hs. unfold readResponse, ReadBytes. rewrite Hi, Hs. reflexivity.
Qed.

Lemma readResponse_pushed (c : Client) (p : bytes) (conn : Conn) :
  readResponse c (pushed p conn) = readResponse c conn.
Proof. apply readResponse_same; reflexivity. Qed.

Lemma HasSuffix_NUL_In (s : bytes) : HasSuffix s [NUL] = true -> In NUL s.
Proof.
  intros H. apply HasSuffix_iff in H as [r ->].
  apply in_or_app. right. left. reflexivity.
Qed.

(** What [readResponse] returns when the reply holds a NUL. *)
Lemma readResponse_terminated (c : Client) (conn : Conn) :
  In NUL (incoming conn) ->
  readResponse c conn = (Some (before NUL (incoming conn)), None).
Proof.
  intros I. unfold readResponse, ReadBytes.
  rewrite readUntil_found by assumption.
  rewrite TrimSuffix_app. reflexivity.
Qed.

(** What [readResponse] returns when the stream ends without a NUL. *)
Lemma readResponse_unterminated (c : Client) (conn : Conn) :
  ~ In NUL (incoming conn) ->
  readResponse c conn
  = if is_EOF (rstop conn) then (Some (incoming conn), None)
    else (None, Some (wrapTo "error while reading response from " c (rstop conn))).
Proof.
  intros N. unfold readResponse, ReadBytes.
  rewrite readUntil_absent by assumption.
  destruct (is_EOF (rstop conn)); [|reflexivity]. cbn [negb].
  rewrite TrimSuffix_none; [reflexivity|].
  destruct (HasSuffix (incoming conn) [NUL]) eqn:E; [|reflexivity].
  exfalso. apply N, HasSuffix_NUL_In, E.
Qed.

(** Writing [p] through a fresh [bufio.Writer] and flushing it. *)
Lemma send_ok (p : bytes) (conn : Conn) :
  p <> [] -> (length p <= defaultBufSize)%nat -> accepts (length p) conn ->
  Write NewWriter p conn = ((mkWriter p None, None), conn)
  /\ Flush (mkWriter p None) conn = ((NewWriter, None), pushed p conn).
Proof.
  intros Hp Hl Ha. split; [apply Write_fits; assumption|apply Flush_ok; assumption].
Qed.

(** When the transport takes the command, the exchange returns what
    [readResponse] reads. *)
Lemma SendCommand_sent (c : Client) (cmd : Command) (conn : Conn) :
  cmd <> [] -> (length cmd <= defaultBufSize)%nat -> accepts (length cmd) conn ->
  SendCommand c cmd conn
  = (match readResponse c conn with
     | (resp, None) => (resp, None)
     | (_, Some e) => (None, Some e)
     end, pushed cmd conn).
Proof.
  intros Hp Hl Ha. destruct (send_ok cmd conn Hp Hl Ha) as [Hw Hf].
  unfold SendCommand, run, bind, call, look, check, ret, return_.
  rewrite Hw. cbn beta iota. rewrite Hf. cbn beta iota.
  rewrite readResponse_pushed.
  destruct (readResponse c conn) as [resp [e|]]; reflexivity.
Qed.

Lemma commandOf_short (op : operation) :
  commandOf op <> [] /\ (length (commandOf op) <= defaultBufSize)%nat.
Proof.
  destruct op; (split; [discriminate|]); unfold defaultBufSize; simpl; lia.
Qed.

Lemma size_checked (size : Z) :
  0 < size <= 4294967295 -> (0 <? size) && (size <=? 4294967295) = true.
Proof. intros. apply andb_true_iff. split; [apply Z.ltb_lt|apply Z.leb_le]; lia. Qed.

Lemma size_rejected (size : Z) :
  size <= 0 \/ 4294967295 < size -> (0 <? size) && (size <=? 4294967295) = false.
Proof.
  intros. apply andb_false_iff.
  destruct (Z.ltb_spec 0 size); [right; apply Z.leb_gt; lia|left; reflexivity].
Qed.

Ltac open_body :=
  unfold InStream, dialed, run, bind, call, look, check, ret, return_.

Ltac send_step H :=
  let Hw := fresh "Hw" in
  let Hf := fresh "Hf" in
  destruct H as [Hw Hf]; rewrite Hw; cbn beta iota; rewrite Hf; cbn beta iota.

Lemma InStream_copied (c : Client) (conn : Conn) (r : Reader) (size : Z) :
  0 < size <= 4294967295 -> copySucceeds conn r ->
  fst (InStream c (inr conn) r size) = answered c conn.
Proof.
  intros Hsize [Ha He].
  assert (H1 : accepts (length CmdInstream) conn)
    by (eapply accepts_le; [|exact Ha]; simpl; lia).
  pose proof (send_ok CmdInstream conn ltac:(discriminate)
                ltac:(unfold defaultBufSize; simpl; lia) H1) as S1.
  set (conn1 := pushed CmdInstream conn) in *.
  assert (H2 : accepts (4 + (length (content r) + 4)) conn1).
  { apply (accepts_pushed CmdInstream). eapply accepts_le; [|exact Ha]. simpl. lia. }
  pose proof (send_ok (PutUint32 (uint32 size)) conn1 ltac:(discriminate)
                ltac:(unfold defaultBufSize; simpl; lia)
                ltac:(eapply accepts_le; [|exact H2]; simpl; lia)) as S2.
  set (conn2 := pushed (PutUint32 (uint32 size)) conn1) in *.
  assert (H3 : accepts (length (content r) + 4) conn2)
    by (apply (accepts_pushed (PutUint32 (uint32 size))); exact H2).
  pose proof (WriteTo_ok r conn2 ltac:(eapply accepts_le; [|exact H3]; lia) He) as S3.
  set (conn3 := pushed (content r) conn2) in *.
  assert (H4 : accepts 4 conn3) by (apply (accepts_pushed (content r)); exact H3).
  pose proof (send_ok [NUL; NUL; NUL; NUL] conn3 ltac:(discriminate)
                ltac:(unfold defaultBufSize; simpl; lia) H4) as S4.
  open_body.
  send_step S1. rewrite size_checked by assumption.
  send_step S2. rewrite S3. cbn beta iota.
  send_step S4.
  unfold answered. subst conn3 conn2 conn1.
  rewrite !readResponse_pushed.
  destruct (readResponse c conn) as [resp [e|]]; [reflexivity|].
  destruct (parseResponse (slice resp)) as [perr|]; [|reflexivity].
  destruct (errors_Is perr VirusFound); reflexivity.
Qed.

Lemma InStream_interrupted (c : Client) (conn : Conn) (r : Reader) (size : Z)
      (ce : goerror) :
  0 < size <= 4294967295 -> copyFails conn r ce ->
  fst (InStream c (inr conn) r size) = recovered c conn ce.
Proof.
  intros Hsize Hfail.
  assert (Ha : accepts 14 conn) by (destruct Hfail as [[? _]|[? _]];
    [assumption|eapply accepts_le; [|eassumption]; lia]).
  assert (H1 : accepts (length CmdInstream) conn)
    by (eapply accepts_le; [|exact Ha]; simpl; lia).
  pose proof (send_ok CmdInstream conn ltac:(discriminate)
                ltac:(unfold defaultBufSize; simpl; lia) H1) as S1.
  set (conn1 := pushed CmdInstream conn) in *.
  assert (H2 : accepts 4 conn1).
  { apply (accepts_pushed CmdInstream). eapply accepts_le; [|exact Ha]. simpl. lia. }
  pose proof (send_ok (PutUint32 (uint32 size)) conn1 ltac:(discriminate)
                ltac:(unfold defaultBufSize; simpl; lia) H2) as S2.
  set (conn2 := pushed (PutUint32 (uint32 size)) conn1) in *.
  assert (S3 : exists w conn3,
             WriteTo r NewWriter conn2 = ((w, Some ce), conn3)
             /\ incoming conn3 = incoming conn /\ rstop conn3 = rstop conn).
  { destruct Hfail as [[_ Hr]|[Hacc [Hce Hne]]].
    - assert (Hr2 : refuses (length (content r)) ce conn2).
      { apply (refuses_pushed (PutUint32 (uint32 size))); [exact H2|].
        apply (refuses_pushed CmdInstream); [exact H1|].
        destruct Hr as [k [Hw Hk]]. exists k. split; [exact Hw|]. simpl. lia. }
      destruct (WriteTo_refused r conn2 ce Hr2) as [w [conn3 [Hw [Hi Hs]]]].
      exists w, conn3. split; [exact Hw|]. split; [rewrite Hi|rewrite Hs]; reflexivity.
    - subst ce. eexists _, _. split.
      + apply WriteTo_reader_error; [|exact Hne].
        apply (accepts_pushed (PutUint32 (uint32 size))).
        apply (accepts_pushed CmdInstream).
        eapply accepts_le; [|exact Hacc]. simpl. lia.
      + split; reflexivity. }
  destruct S3 as [w [conn3 [S3 [Hi Hs]]]].
  open_body.
  send_step S1. rewrite size_checked by assumption.
  send_step S2. rewrite S3. cbn beta iota.
  unfold recovered.
  rewrite (readResponse_same c conn conn3 Hi Hs).
  destruct (readResponse c conn) as [resp [e|]]; [reflexivity|].
  destruct (parseResponse (slice resp)) as [perr|]; [|reflexivity].
  destruct (errors_Is perr ScanFileSizeLimitExceeded); reflexivity.
Qed.

Lemma InStream_rejected (c : Client) (conn : Conn) (r : Reader) (size : Z) :
  size <= 0 \/ 4294967295 < size -> accepts (length CmdInstream) conn ->
  InStream c (inr conn) r size
  = ((None, Some (Plainf (lit "file size " ++ fmt_d size
                          ++ lit " exceeds maximum allowed size"))),
     Some (conn_Close (pushed CmdInstream conn))).
Proof.
  intros Hsize Ha.
  pose proof (send_ok CmdInstream conn ltac:(discriminate)
                ltac:(unfold defaultBufSize; simpl; lia) Ha) as S1.
  open_body.
  send_step S1. rewrite size_rejected by assumption. reflexivity.
Qed.

End ClientFacts.

(** ** Reply classification *)

Module ClassifyFacts.
Import GoBytes GoBytesFacts EqualFoldImpl Fold FoldFacts Clamav.

Lemma parseResponse_sizeLimit (msg : bytes) :
  parseResponse msg = Some ErrScanFileSizeLimitExceeded
  <-> foldEqual msg RespErrScanFileSizeLimitExceeded.
Proof.
  rewrite <- (EqualFold_ascii msg _ sizeLimit_literal_ascii).
  unfold parseResponse.
  destruct (EqualFold msg RespErrScanFileSizeLimitExceeded); [tauto|].
  destruct (HasPrefix msg (lit "stream: ") && HasSuffix msg (lit "FOUND"));
    [split; discriminate|].
  destruct (Equal msg RespErrUnknownCommand); split; discriminate.
Qed.

Lemma parseResponse_cases (msg : bytes) (perr : goerror) :
  parseResponse msg = Some perr ->
  perr = ErrScanFileSizeLimitExceeded \/ perr = ErrVirusFound
  \/ perr = ErrUnknownCommand.
Proof.
  unfold parseResponse.
  destruct (EqualFold msg RespErrScanFileSizeLimitExceeded);
    [intros [= <-]; auto|].
  destruct (HasPrefix msg (lit "stream: ") && HasSuffix msg (lit "FOUND"));
    [intros [= <-]; auto|].
  destruct (Equal msg RespErrUnknownCommand); [intros [= <-]; auto|discriminate].
Qed.

(** A reply that begins with ["stream: "] is never the size-limit message. *)
Lemma stream_reply_not_sizeLimit (m : bytes) :
  EqualFold (lit "stream: " ++ m) RespErrScanFileSizeLimitExceeded = false.
Proof. reflexivity. Qed.

Lemma parseResponse_detection (s : bytes) :
  parseResponse (lit "stream: " ++ s ++ lit " FOUND") = Some ErrVirusFound.
Proof.
  unfold parseResponse. rewrite stream_reply_not_sizeLimit.
  assert (Hp : HasPrefix (lit "stream: " ++ s ++ lit " FOUND") (lit "stream: ") = true)
    by (apply HasPrefix_iff; eauto).
  assert (Hs : HasSuffix (lit "stream: " ++ s ++ lit " FOUND") (lit "FOUND") = true).
  { apply HasSuffix_iff. exists (lit "stream: " ++ s ++ lit " ").
    rewrite <- !app_assoc. reflexivity. }
  rewrite Hp, Hs. reflexivity.
Qed.

End ClassifyFacts.

(** ** Signature extraction *)

Module ControllersFacts.
Import GoBytes Controllers.

Lemma TrimLeft_app_cut (p q cutset : bytes) :
  forallb (inCutset cutset) p = true ->
  TrimLeft (p ++ q) cutset = TrimLeft q cutset.
Proof.
  induction p as [|x p IH]; [reflexivity|].
  simpl. intros H. apply andb_true_iff in H as [Hx Hp].
  rewrite Hx. apply IH. assumption.
Qed.

Lemma TrimLeft_stop (x : byte) (q cutset : bytes) :
  inCutset cutset x = false -> TrimLeft (x :: q) cutset = x :: q.
Proof. intros H. simpl. rewrite H. reflexivity. Qed.

(** The extraction gives the signature back when its first character is
    none of ["stream: "] and its last one none of [" FOUND"]. *)
Lemma parseSignature_exact (s : bytes) :
  s <> [] ->
  inCutset (lit "stream: ") (hd NUL s) = false ->
  inCutset (lit " FOUND") (last s NUL) = false ->
  parseSignature (lit "stream: " ++ s ++ lit " FOUND") = s.
Proof.
  intros Hne Hhd Hlast. unfold parseSignature, TrimRight.
  rewrite !rev_app_distr.
  rewrite <- app_assoc.
  rewrite TrimLeft_app_cut by reflexivity.
  destruct (exists_last Hne) as [mid [z ->]].
  rewrite last_last in Hlast.
  rewrite rev_app_distr. cbn [rev app].
  rewrite TrimLeft_stop by assumption.
  change (z :: rev mid ++ rev (lit "stream: ")) with ((z :: rev mid) ++ rev (lit "stream: ")).
  rewrite rev_app_distr, rev_involutive.
  change (z :: rev mid) with ([z] ++ rev mid).
  rewrite rev_app_distr, rev_involutive. cbn [rev app].
  rewrite TrimLeft_app_cut by reflexivity.
  destruct mid as [|x mid]; cbn [app hd] in *.
  - apply TrimLeft_stop. assumption.
  - apply TrimLeft_stop. assumption.
Qed.

End ControllersFacts.

(* ===================================================================== *)
(** * The claims *)
(* ===================================================================== *)

Import GoBytes GoBytesFacts Fold FoldFacts TransportFacts ClientFacts ClassifyFacts.

(** C1, as amended.  A declared size of 0, below 0 or above 4294967295 makes
    [InStream] fail with a local validation error that wraps nothing, and
    neither the 4-byte length field nor any content byte is written; but the
    check comes after the start command has been written and flushed, so on a
    transport that takes it the bytes sent are exactly the INSTREAM command,
    and the connection is closed. *)
Theorem InStream_invalid_size_sends_only_command
        (c : Client) (conn : Conn) (r : Reader) (size : Z) :
  size <= 0 \/ 4294967295 < size ->
  accepts (length CmdInstream) conn ->
  exists conn',
    Clamav.InStream c (inr conn) r size
    = ((None, Some (Plainf (lit "file size " ++ fmt_d size
                            ++ lit " exceeds maximum allowed size"))),
       Some conn')
    /\ sent conn' = sent conn ++ CmdInstream
    /\ closed conn' = true.
Proof.
  intros Hsize Ha. eexists. split.
  - apply InStream_rejected; assumption.
  - split; reflexivity.
Qed.

(** The statement above at a declared size of 0 on a sound transport. *)
Lemma InStream_invalid_size_sends_only_command_witness :
  (0 <= 0 \/ 4294967295 < 0)
  /\ accepts (length CmdInstream) (goodConn [])
  /\ exists conn',
      Clamav.InStream tcp (inr (goodConn [])) (mkReader (lit "hello") io_EOF) 0
      = ((None, Some (Plainf (lit "file size 0 exceeds maximum allowed size"))),
         Some conn')
      /\ sent conn' = CmdInstream
      /\ closed conn' = true.
Proof.
  split; [left; lia|]. split; [exact I|].
  apply (InStream_invalid_size_sends_only_command
           tcp (goodConn []) (mkReader (lit "hello") io_EOF) 0);
    [left; lia|exact I].
Defined.

(** C1, counterexample to the claim as stated: with a declared size of 0
    the ten bytes of the start command have reached the transport when
    [InStream] fails. *)
Lemma InStream_size_zero_reaches_transport :
  exists conn',
    snd (Clamav.InStream tcp (inr (goodConn [])) (mkReader (lit "hello") io_EOF) 0)
    = Some conn'
    /\ sent conn' = lit "zINSTREAM" ++ [NUL]
    /\ sent conn' <> [].
Proof.
  eexists. split; [reflexivity|]. split; [reflexivity|discriminate].
Qed.






(** C4.  [parseResponse] depends on the reply alone and decides in this
    order: a reply equal to the size-limit message up to letter case is
    [SizeLimitExceeded]; otherwise a reply that begins with ["stream: "] and
    ends with ["FOUND"] is [VirusFound]; otherwise a reply equal to the
    unknown-command message is [UnknownCommand]; otherwise there is no error.
    Only the first test is blind to letter case: the lower-case size-limit
    message is still classified, the lower-case unknown-command message and a
    detection with another letter case in its prefix or suffix are not. *)
Theorem parseResponse_classification (msg : bytes) :
  let sizeLimit := foldEqual msg RespErrScanFileSizeLimitExceeded in
  let detection :=
      (exists m, msg = lit "stream: " ++ m) /\ (exists m, msg = m ++ lit "FOUND") in
  (sizeLimit -> Clamav.parseResponse msg = Some ErrScanFileSizeLimitExceeded)
  /\ (~ sizeLimit -> detection -> Clamav.parseResponse msg = Some ErrVirusFound)
  /\ (~ sizeLimit -> ~ detection -> msg = RespErrUnknownCommand ->
      Clamav.parseResponse msg = Some ErrUnknownCommand)
  /\ (~ sizeLimit -> ~ detection -> msg <> RespErrUnknownCommand ->
      Clamav.parseResponse msg = None)
  /\ Clamav.parseResponse (lit "instream size limit exceeded. error")
     = Some ErrScanFileSizeLimitExceeded
  /\ Clamav.parseResponse (lit "unknown command") = None
  /\ Clamav.parseResponse (lit "STREAM: Eicar-Signature FOUND") = None
  /\ Clamav.parseResponse (lit "stream: Eicar-Signature found") = None.
Proof.
  intros sizeLimit detection.
  assert (Hsl : EqualFoldImpl.EqualFold msg RespErrScanFileSizeLimitExceeded = true
                <-> sizeLimit)
    by (apply EqualFold_ascii, sizeLimit_literal_ascii).
  assert (Hdet : HasPrefix msg (lit "stream: ") && HasSuffix msg (lit "FOUND") = true
                 <-> detection)
    by (rewrite andb_true_iff, HasPrefix_iff, HasSuffix_iff; reflexivity).
  assert (Hunk : Equal msg RespErrUnknownCommand = true <-> msg = RespErrUnknownCommand)
    by apply Equal_eq.
  unfold Clamav.parseResponse at 1 2 3 4.
  destruct (EqualFoldImpl.EqualFold msg RespErrScanFileSizeLimitExceeded).
  - assert sizeLimit by (apply Hsl; reflexivity).
    repeat split; try reflexivity; intros; contradiction.
  - assert (~ sizeLimit) by (intros Habs; apply Hsl in Habs; discriminate).
    destruct (HasPrefix msg (lit "stream: ") && HasSuffix msg (lit "FOUND")).
    + assert detection by (apply Hdet; reflexivity).
      repeat split; try reflexivity; intros; contradiction.
    + assert (~ detection) by (intros Habs; apply Hdet in Habs; discriminate).
      destruct (Equal msg RespErrUnknownCommand).
      * assert (msg = RespErrUnknownCommand) by (apply Hunk; reflexivity).
        repeat split; try reflexivity; intros; contradiction.
      * assert (msg <> RespErrUnknownCommand)
          by (intros Habs; apply Hunk in Habs; discriminate).
        repeat split; try reflexivity; intros; contradiction.
Qed.

(** C5, as amended.  Ping, version, reload, stats and the capability list
    classify the trimmed reply after the exchange: whatever error the reply
    classifies to is returned under the prefix of daemon errors, and in
    particular a reply equal to the size-limit message up to letter case makes
    the operation fail with [SizeLimitExceeded].  Shutdown does not classify:
    it discards the reply and succeeds whenever the exchange does. *)
Theorem sizeLimit_reply_after_exchange
        (op : operation) (c : Client) (conn : Conn) (resp : bytes) :
  accepts (length (commandOf op)) conn ->
  Clamav.readResponse c conn = (Some resp, None) ->
  (op <> OpShutdown ->
   forall perr,
     Clamav.parseResponse resp = Some perr ->
     errorOf op c (inr conn) = Some (Clamav.fromClamav perr))
  /\ (op <> OpShutdown ->
      foldEqual resp RespErrScanFileSizeLimitExceeded ->
      errorOf op c (inr conn) = Some (Clamav.fromClamav ErrScanFileSizeLimitExceeded)
      /\ errors_Is (Clamav.fromClamav ErrScanFileSizeLimitExceeded)
                   ScanFileSizeLimitExceeded = true)
  /\ (op = OpShutdown -> errorOf op c (inr conn) = None).
Proof.
  intros Ha Hr.
  destruct (commandOf_short op) as [Hne Hlen].
  pose proof (SendCommand_sent c (commandOf op) conn Hne Hlen Ha) as Hs.
  rewrite Hr in Hs.
  assert (Hclass : op <> OpShutdown ->
                   forall perr,
                     Clamav.parseResponse resp = Some perr ->
                     errorOf op c (inr conn) = Some (Clamav.fromClamav perr)).
  { intros Hop perr Hp.
    destruct op; try contradiction;
      cbn [errorOf commandOf] in *;
      unfold Clamav.Ping, Clamav.Version, Clamav.Stats, Clamav.VersionCommands,
        Clamav.query, Clamav.Reload, Clamav.dialed,
        run, bind, call, look, check, ret, return_;
      rewrite Hs; cbn [slice]; rewrite Hp; reflexivity. }
  split; [exact Hclass|]. split.
  - intros Hop Hfold. split; [|reflexivity].
    apply Hclass; [exact Hop|]. apply parseResponse_sizeLimit. exact Hfold.
  - intros ->. cbn [errorOf commandOf] in *.
    unfold Clamav.Shutdown, Clamav.dialed, run, bind, call, look, check, ret, return_.
    rewrite Hs. reflexivity.
Qed.

(** The statement above for a ping answered with the size-limit message in
    lower case. *)
Lemma sizeLimit_reply_after_exchange_witness :
  accepts (length (commandOf OpPing))
          (goodConn (lit "instream size limit exceeded. error" ++ [NUL]))
  /\ Clamav.readResponse
       tcp (goodConn (lit "instream size limit exceeded. error" ++ [NUL]))
     = (Some (lit "instream size limit exceeded. error"), None)
  /\ foldEqual (lit "instream size limit exceeded. error")
               RespErrScanFileSizeLimitExceeded
  /\ snd (fst (Clamav.Ping
                 tcp (inr (goodConn (lit "instream size limit exceeded. error" ++ [NUL])))))
     = Some (Clamav.fromClamav ErrScanFileSizeLimitExceeded).
Proof.
  assert (Hf : foldEqual (lit "instream size limit exceeded. error")
                         RespErrScanFileSizeLimitExceeded) by reflexivity.
  split; [exact I|]. split; [reflexivity|]. split; [exact Hf|].
  destruct (sizeLimit_reply_after_exchange
              OpPing tcp
              (goodConn (lit "instream size limit exceeded. error" ++ [NUL]))
              (lit "instream size limit exceeded. error") I eq_refl) as [_ [H _]].
  destruct (H ltac:(discriminate) Hf) as [He _]. exact He.
Defined.

(** C5, counterexample to the claim as stated: the daemon answers the
    shutdown command with the size-limit message, the exchange reads it, and
    [Shutdown] returns no error. *)
Lemma Shutdown_ignores_sizeLimit_reply :
  fst (Clamav.SendCommand tcp CmdShutdown
         (goodConn (RespErrScanFileSizeLimitExceeded ++ [NUL])))
  = (Some RespErrScanFileSizeLimitExceeded, None)
  /\ errorOf OpShutdown tcp (inr (goodConn (RespErrScanFileSizeLimitExceeded ++ [NUL])))
     = None.
Proof. split; reflexivity. Qed.

(** C6, as amended.  For every command, the capability list included, the
    reply is read up to the first null byte or, when the daemon closes the
    stream before any, up to its end; the response is what precedes the null
    byte, which is trimmed.  A newline is never a terminator: it stays in the
    response like any other byte. *)
Theorem SendCommand_reads_to_null
        (op : operation) (c : Client) (conn : Conn) :
  accepts (length (commandOf op)) conn ->
  In NUL (incoming conn) \/ rstop conn = io_EOF ->
  fst (Clamav.SendCommand c (commandOf op) conn)
  = (Some (before NUL (incoming conn)), None)
  /\ (~ In NUL (incoming conn) -> before NUL (incoming conn) = incoming conn).
Proof.
  intros Ha Hend.
  destruct (commandOf_short op) as [Hne Hlen].
  rewrite (SendCommand_sent c (commandOf op) conn Hne Hlen Ha). cbn [fst].
  split; [|apply before_absent].
  destruct (in_dec Byte.byte_eq_dec NUL (incoming conn)) as [Hin|Hnot].
  - rewrite readResponse_terminated by assumption. reflexivity.
  - destruct Hend as [Hin|Heof]; [contradiction|].
    rewrite readResponse_unterminated by assumption.
    rewrite Heof. cbn. rewrite before_absent by assumption. reflexivity.
Qed.

(** The statement above for a capability list that ends with a newline and
    the end of the stream. *)
Lemma SendCommand_reads_to_null_witness :
  accepts (length (commandOf OpVersionCommands))
          (goodConn (lit "ClamAV 1.0.1| COMMANDS: PING VERSION" ++ [LF]))
  /\ (In NUL (incoming (goodConn (lit "ClamAV 1.0.1| COMMANDS: PING VERSION" ++ [LF])))
      \/ rstop (goodConn (lit "ClamAV 1.0.1| COMMANDS: PING VERSION" ++ [LF])) = io_EOF)
  /\ fst (Clamav.SendCommand
            tcp CmdVersionCommands
            (goodConn (lit "ClamAV 1.0.1| COMMANDS: PING VERSION" ++ [LF])))
     = (Some (lit "ClamAV 1.0.1| COMMANDS: PING VERSION" ++ [LF]), None).
Proof.
  split; [exact I|]. split; [right; reflexivity|].
  exact (proj1 (SendCommand_reads_to_null
                  OpVersionCommands tcp
                  (goodConn (lit "ClamAV 1.0.1| COMMANDS: PING VERSION" ++ [LF]))
                  I (or_intror eq_refl))).
Defined.

(** C6, counterexample to the claim as stated: the capability-list command
    ends with a newline, the daemon terminates its reply with a newline and
    closes the stream, and the response still ends with that newline: it is
    not what precedes the command's terminator. *)
Lemma VersionCommands_keeps_newline :
  terminator CmdVersionCommands = LF
  /\ fst (Clamav.SendCommand
            tcp CmdVersionCommands
            (goodConn (lit "ClamAV 1.0.1| COMMANDS: PING VERSION" ++ [LF])))
     = (Some (lit "ClamAV 1.0.1| COMMANDS: PING VERSION" ++ [LF]), None)
  /\ before (terminator CmdVersionCommands)
            (lit "ClamAV 1.0.1| COMMANDS: PING VERSION" ++ [LF])
     = lit "ClamAV 1.0.1| COMMANDS: PING VERSION"
  /\ fst (Clamav.SendCommand
            tcp CmdVersionCommands
            (goodConn (lit "ClamAV 1.0.1| COMMANDS: PING VERSION" ++ [LF])))
     <> (Some (before (terminator CmdVersionCommands)
                      (lit "ClamAV 1.0.1| COMMANDS: PING VERSION" ++ [LF])), None).
Proof.
  split; [reflexivity|]. split; [reflexivity|]. split; [reflexivity|].
  discriminate.
Qed.

(** C7.  Once the exchange has given the trimmed reply [resp], [Reload]
    succeeds exactly when [resp] is ["RELOADING"].  A different reply that
    classifies to no error makes it fail with [UnexpectedResponse], and the
    message carries the expected and the actual text. *)
Theorem Reload_expects_acknowledgement
        (c : Client) (conn : Conn) (resp : bytes) :
  accepts (length CmdReload) conn ->
  Clamav.readResponse c conn = (Some resp, None) ->
  (fst (Clamav.Reload c (inr conn)) = None <-> resp = RespReload)
  /\ (resp <> RespReload -> Clamav.parseResponse resp = None ->
      exists e,
        fst (Clamav.Reload c (inr conn)) = Some e
        /\ errors_Is e UnexpectedResponse = true
        /\ Error e
           = lit "error from clamav: unexpected response from clamav. Expected "
             ++ lit "RELOADING" ++ lit " but got " ++ resp).
Proof.
  intros Ha Hr.
  pose proof (SendCommand_sent c CmdReload conn ltac:(discriminate)
                ltac:(unfold Bufio.defaultBufSize; simpl; lia) Ha) as Hs.
  rewrite Hr in Hs.
  unfold Clamav.Reload, Clamav.dialed, run, bind, call, look, check, ret, return_.
  rewrite Hs. cbn [slice].
  destruct (Equal resp RespReload) eqn:E.
  - apply Equal_eq in E. subst resp.
    split; [split; reflexivity|]. intros Habs. contradiction.
  - assert (Hne : resp <> RespReload)
      by (intros Habs; apply Equal_eq in Habs; congruence).
    destruct (Clamav.parseResponse resp) as [perr|].
    + split; [split; [discriminate|contradiction]|]. discriminate.
    + split; [split; [discriminate|contradiction]|].
      intros _ _. eexists. split; [reflexivity|]. split; reflexivity.
Qed.

(** The statement above for a reload answered with ["OK"]. *)
Lemma Reload_expects_acknowledgement_witness :
  accepts (length CmdReload) (goodConn (lit "OK" ++ [NUL]))
  /\ Clamav.readResponse tcp (goodConn (lit "OK" ++ [NUL])) = (Some (lit "OK"), None)
  /\ exists e,
      fst (Clamav.Reload tcp (inr (goodConn (lit "OK" ++ [NUL])))) = Some e
      /\ errors_Is e UnexpectedResponse = true
      /\ Error e
         = lit "error from clamav: unexpected response from clamav. Expected RELOADING but got OK".
Proof.
  split; [exact I|]. split; [reflexivity|].
  exact (proj2 (Reload_expects_acknowledgement
                  tcp (goodConn (lit "OK" ++ [NUL])) (lit "OK") I eq_refl)
               ltac:(discriminate) eq_refl).
Defined.

(** C8: where the code departs from the claim.  Every reply
    ["stream: " ++ s ++ " FOUND"] classifies as [VirusFound], and for the
    signature of the specification the extraction gives it back; but
    [parseSignature] trims by character sets, not by prefix and suffix, so a
    signature that ends with one of the characters of [" FOUND"] (or begins
    with one of ["stream: "]) loses them: the daemon's
    [Heuristics.Encrypted.PDF] comes out as [Heuristics.Encrypted.P]. *)
Theorem parseSignature_trims_character_sets :
  (forall s, Clamav.parseResponse (lit "stream: " ++ s ++ lit " FOUND")
             = Some ErrVirusFound)
  /\ Controllers.parseSignature (lit "stream: Win.Test.EICAR_HDB-1 FOUND")
     = lit "Win.Test.EICAR_HDB-1"
  /\ fst (Clamav.InStream
            tcp (inr (goodConn (lit "stream: Heuristics.Encrypted.PDF FOUND" ++ [NUL])))
            (mkReader (lit "%PDF-1.7") io_EOF) 8)
     = (Some (lit "stream: Heuristics.Encrypted.PDF FOUND"), Some ErrVirusFound)
  /\ Controllers.parseSignature (lit "stream: Heuristics.Encrypted.PDF FOUND")
     = lit "Heuristics.Encrypted.P"
  /\ Controllers.respond
       (fst (Clamav.InStream
               tcp (inr (goodConn (lit "stream: Heuristics.Encrypted.PDF FOUND" ++ [NUL])))
               (mkReader (lit "%PDF-1.7") io_EOF) 8))
     = inl (Controllers.mkInStreamResponse
              (lit "error") (lit "file contains potential virus")
              (lit "Heuristics.Encrypted.P") true)
  /\ Controllers.parseSignature (lit "stream: test.sig FOUND") = lit ".sig".
Proof.
  split; [apply parseResponse_detection|].
  repeat split; reflexivity.
Qed.

(** C9, as amended.  [FreshClam] returns the captured output when the child
    process succeeds and when it fails with the context still live (whether
    the output then counts as a success or the failure is reported).  When the
    process fails and the context is done, it returns no output, only an
    error that wraps the context's error under its own prefix, distinct from
    the one of a generic failure. *)
Theorem FreshClam_output
        (ctxErr : option goerror) (output : option bytes) (err : option goerror) :
  (err = None \/ ctxErr = None -> fst (Clamav.FreshClam ctxErr output err) = output)
  /\ (forall e ce,
         err = Some e -> ctxErr = Some ce ->
         Clamav.FreshClam ctxErr output err
         = (None, Some (Wrapf (lit "freshclam command cancelled: ") ce []))
         /\ Wrapf (lit "freshclam command cancelled: ") ce []
            <> Wrapf (lit "freshclam command failed: ") e [])
  /\ (forall e,
         err = Some e -> ctxErr = None ->
         snd (Clamav.FreshClam ctxErr output err) = None
         \/ snd (Clamav.FreshClam ctxErr output err)
            = Some (Wrapf (lit "freshclam command failed: ") e [])).
Proof.
  split; [|split].
  - intros [-> | ->].
    + reflexivity.
    + destruct err as [e|]; [|reflexivity]. unfold Clamav.FreshClam.
      destruct (_ || _); reflexivity.
  - intros e ce -> ->. split; [reflexivity|]. discriminate.
  - intros e -> ->. unfold Clamav.FreshClam.
    destruct (_ || _); [left|right]; reflexivity.
Qed.

(** C9, counterexample to the claim as stated: the context is cancelled
    while the child process has already written to its output; the output is
    dropped. *)
Lemma FreshClam_cancelled_drops_output :
  Clamav.FreshClam (Some (Sentinel Canceled))
                   (Some (lit "Downloading daily.cvd"))
                   (Some (External false (lit "signal: killed")))
  = (None, Some (Wrapf (lit "freshclam command cancelled: ") (Sentinel Canceled) []))
  /\ fst (Clamav.FreshClam (Some (Sentinel Canceled))
                           (Some (lit "Downloading daily.cvd"))
                           (Some (External false (lit "signal: killed"))))
     <> Some (lit "Downloading daily.cvd").
Proof. split; [reflexivity|discriminate]. Qed.

(** C10.  When the stream ends with [io.EOF] before any null byte,
    [readResponse] returns everything received as the response, with no
    error; a connection closed at once gives the empty response. *)
Theorem readResponse_end_of_stream (c : Client) (conn : Conn) :
  ~ In NUL (incoming conn) ->
  rstop conn = io_EOF ->
  Clamav.readResponse c conn = (Some (incoming conn), None).
Proof.
  intros Hnot Heof. rewrite readResponse_unterminated by assumption.
  rewrite Heof. reflexivity.
Qed.

(** The statement above for a connection closed before any byte. *)
Lemma readResponse_end_of_stream_witness :
  ~ In NUL (incoming (goodConn []))
  /\ rstop (goodConn []) = io_EOF
  /\ Clamav.readResponse tcp (goodConn []) = (Some [], None).
Proof.
  assert (H : ~ In NUL (incoming (goodConn []))) by (intros []).
  split; [exact H|]. split; [reflexivity|].
  exact (readResponse_end_of_stream tcp (goodConn []) H eq_refl).
Defined.

(* ===================================================================== *)
(** * Further properties of the code *)
(* ===================================================================== *)

(** ** The API key middleware *)

Module AuthFacts.
Import GoBytes GoBytesFacts Http Auth.

Lemma b2z_inj (x y : byte) : b2z x = b2z y -> x = y.
Proof.
  unfold b2z. intros H. apply N2Z.inj in H.
  pose proof (Byte.of_to_N x) as Hx. pose proof (Byte.of_to_N y) as Hy.
  rewrite H in Hx. congruence.
Qed.

Lemma lxor_bytes_zero (x y : byte) : Z.lxor (b2z x) (b2z y) = 0 <-> x = y.
Proof.
  split.
  - intros H. apply b2z_inj, Z.lxor_eq. assumption.
  - intros ->. apply Z.lxor_nilpotent.
Qed.

Lemma lxor_bytes_nonneg (x y : byte) : 0 <= Z.lxor (b2z x) (b2z y).
Proof.
  apply Z.lxor_nonneg. pose proof (b2z_range x). pose proof (b2z_range y). lia.
Qed.

Lemma accumulate_zero (l : list (byte * byte)) (acc : Z) :
  0 <= acc ->
  fold_left (fun result xy => Z.lor result (Z.lxor (b2z (fst xy)) (b2z (snd xy)))) l acc = 0
  <-> acc = 0 /\ Forall (fun xy => fst xy = snd xy) l.
Proof.
  revert acc. induction l as [|[x y] l IH]; intros acc Hacc; cbn [fold_left fst snd].
  - split; [intros ->; auto|intros [-> _]; reflexivity].
  - rewrite IH by (apply Z.lor_nonneg; split; [assumption|apply lxor_bytes_nonneg]).
    rewrite Z.lor_eq_0_iff, lxor_bytes_zero. split.
    + intros [[Ha Hxy] Hl]. split; [assumption|]. constructor; assumption.
    + intros [Ha Hl]. inversion Hl; subst. auto.
Qed.

Lemma combine_equal (a b : bytes) :
  length a = length b ->
  Forall (fun xy : byte * byte => fst xy = snd xy) (combine a b) <-> a = b.
Proof.
  revert b. induction a as [|x a IH]; intros [|y b] Hlen; simpl in *;
    try discriminate.
  - split; auto.
  - injection Hlen as Hlen. split.
    + intros H. inversion H; subst. simpl in *. f_equal; [assumption|].
      apply IH; assumption.
    + intros [= -> ->]. constructor; [reflexivity|]. apply IH; auto.
Qed.

Lemma IsPublicEndpoint_iff (path : bytes) :
  IsPublicEndpoint path = true
  <-> exists base rest, In base publicPaths /\ path = base ++ rest.
Proof.
  unfold IsPublicEndpoint. rewrite existsb_exists. split.
  - intros [base [Hin Hp]]. apply HasPrefix_iff in Hp as [rest ->]. eauto.
  - intros [base [rest [Hin ->]]]. exists base. split; [assumption|].
    apply HasPrefix_iff. eauto.
Qed.

Lemma constantTimeEquals_refl (a : bytes) : constantTimeEquals a a = true.
Proof.
  unfold constantTimeEquals. rewrite Nat.eqb_refl. cbn [negb].
  apply Z.eqb_eq, accumulate_zero; [lia|]. split; [reflexivity|].
  apply combine_equal; reflexivity.
Qed.

Lemma constantTimeEquals_sound (a b : bytes) :
  constantTimeEquals a b = true -> a = b.
Proof.
  unfold constantTimeEquals.
  destruct (Nat.eqb_spec (length a) (length b)) as [Hlen|Hlen]; cbn [negb];
    [|discriminate].
  intros H. apply Z.eqb_eq, accumulate_zero in H; [|lia].
  apply (combine_equal a b Hlen), H.
Qed.

End AuthFacts.

Import Http Auth AuthFacts.

(** X1.  [constantTimeEquals] is equality of the two strings: it is true
    exactly when they have the same length and the same bytes. *)
Theorem constantTimeEquals_iff_equal (a b : bytes) :
  constantTimeEquals a b = true <-> a = b.
Proof.
  unfold constantTimeEquals.
  destruct (Nat.eqb_spec (length a) (length b)) as [Hlen|Hlen]; cbn [negb].
  - rewrite Z.eqb_eq, accumulate_zero by lia.
    rewrite (combine_equal a b Hlen). tauto.
  - split; [discriminate|]. intros ->. contradiction.
Qed.

(** X2.  A path is public exactly when it begins with one of the four public
    paths; so whatever is appended to a public path is public too, and the
    scan, version, reload and shutdown routes are not. *)
Theorem IsPublicEndpoint_prefixes (path : bytes) :
  (IsPublicEndpoint path = true
   <-> exists rest,
       path = lit "/rest/v1/ping" ++ rest \/ path = lit "/health" ++ rest
       \/ path = lit "/readiness" ++ rest \/ path = lit "/liveness" ++ rest)
  /\ (IsPublicEndpoint path = true ->
      forall more, IsPublicEndpoint (path ++ more) = true)
  /\ (forall more,
         IsPublicEndpoint (lit "/rest/v1/scan" ++ more) = false
         /\ IsPublicEndpoint (lit "/rest/v1/version" ++ more) = false
         /\ IsPublicEndpoint (lit "/rest/v1/reload" ++ more) = false
         /\ IsPublicEndpoint (lit "/rest/v1/shutdown" ++ more) = false).
Proof.
  split; [|split].
  - rewrite IsPublicEndpoint_iff. split.
    + intros [base [rest [Hin ->]]]. exists rest.
      destruct Hin as [<-|[<-|[<-|[<-|[]]]]]; auto.
    + intros [rest H].
      destruct H as [-> | [-> | [-> | ->]]]; eexists _, rest;
        (split; [|reflexivity]); simpl; auto.
  - intros H more. apply IsPublicEndpoint_iff in H as [base [rest [Hin ->]]].
    apply IsPublicEndpoint_iff. exists base, (rest ++ more).
    split; [assumption|]. rewrite app_assoc. reflexivity.
  - intros more. repeat split; reflexivity.
Qed.

(** X3.  The conditional middleware hands the request to the next handler
    when no API key is configured, when the path is public, or when the header
    holds the configured key; with a key configured and a protected path it
    answers 401 itself, with ["API key required"] for an absent or empty
    header and ["Invalid API key"] for any other value, and the next handler
    is not run. *)
Theorem ConditionalAPIKeyAuth_decision
        (apiKey headerName : bytes) (next : Handler) (r : Request) :
  (apiKey = [] \/ IsPublicEndpoint (URLPath r) = true
   \/ (HeaderGet r headerName = apiKey) ->
   ConditionalAPIKeyAuth apiKey headerName next r = next r)
  /\ (apiKey <> [] -> IsPublicEndpoint (URLPath r) = false ->
      HeaderGet r headerName = [] ->
      ConditionalAPIKeyAuth apiKey headerName next r
      = writeAPIKeyErrorResponse (lit "API key required"))
  /\ (apiKey <> [] -> IsPublicEndpoint (URLPath r) = false ->
      HeaderGet r headerName <> [] -> HeaderGet r headerName <> apiKey ->
      ConditionalAPIKeyAuth apiKey headerName next r
      = writeAPIKeyErrorResponse (lit "Invalid API key"))
  /\ StatusCode (writeAPIKeyErrorResponse (lit "Invalid API key")) = 401.
Proof.
  unfold ConditionalAPIKeyAuth, APIKeyAuth.
  split; [|split; [|split]].
  - intros H. destruct (IsPublicEndpoint (URLPath r)); [reflexivity|].
    destruct apiKey as [|k apiKey]; [reflexivity|].
    destruct H as [H|[H|H]]; try discriminate.
    rewrite H.
    rewrite constantTimeEquals_refl. reflexivity.
  - intros Hk Hp Hh. rewrite Hp, Hh.
    destruct apiKey; [contradiction|reflexivity].
  - intros Hk Hp Hh Hne. rewrite Hp.
    destruct apiKey as [|k apiKey]; [contradiction|].
    destruct (HeaderGet r headerName) as [|x provided] eqn:E; [contradiction|].
    destruct (constantTimeEquals (x :: provided) (k :: apiKey)) eqn:Hc;
      [|reflexivity].
    apply constantTimeEquals_sound in Hc. contradiction.
  - reflexivity.
Qed.

(** ** The transport refusing a write *)

Module RefusalFacts.
Import GoBytes GoBytesFacts Bufio TransportFacts ClientFacts Clamav.

Lemma accepts_or_refuses (n : nat) (conn : Conn) :
  accepts n conn \/ exists k e, wroom conn = Some (k, e) /\ (k < n)%nat.
Proof.
  unfold accepts. destruct (wroom conn) as [[k e]|]; [|left; exact I].
  destruct (Nat.le_gt_cases n k); [left; assumption|right; eauto].
Qed.

Lemma Flush_refused (p : bytes) (conn : Conn) (k : nat) (e : goerror) :
  wroom conn = Some (k, e) -> (k < length p)%nat ->
  Flush (mkWriter p None) conn
  = ((mkWriter (skipn k p) (Some e), Some e), cut k e p conn).
Proof.
  intros Hw Hk. unfold Flush. cbn [err buf].
  destruct p as [|x p]; [simpl in Hk; lia|].
  unfold conn_Write. rewrite Hw.
  destruct (Nat.leb_spec (length (x :: p)) k); [lia|]. reflexivity.
Qed.

(** When the transport refuses the command, the exchange fails without
    reading. *)
Lemma SendCommand_refused (c : Client) (cmd : Command) (conn : Conn)
      (k : nat) (e : goerror) :
  (length cmd <= defaultBufSize)%nat ->
  wroom conn = Some (k, e) -> (k < length cmd)%nat ->
  SendCommand c cmd conn
  = ((None, Some (wrapTo "error while flushing command to " c e)),
     cut k e cmd conn).
Proof.
  intros Hl Hw Hk.
  unfold SendCommand, run, bind, call, look, check, ret, return_.
  rewrite (Write_fits cmd conn Hl). cbn beta iota.
  rewrite (Flush_refused cmd conn k e Hw Hk). reflexivity.
Qed.

Lemma wroom_pushed (p : bytes) (conn : Conn) (k : nat) (e : goerror) :
  wroom conn = Some (k, e) ->
  wroom (pushed p conn) = Some ((k - length p)%nat, e).
Proof. intros H. unfold pushed. cbn [wroom]. rewrite H. reflexivity. Qed.

Lemma sent_pushed (p : bytes) (conn : Conn) : sent (pushed p conn) = sent conn ++ p.
Proof. reflexivity. Qed.

Lemma accepts_wroom (n k : nat) (e : goerror) (conn : Conn) :
  wroom conn = Some (k, e) -> (n <= k)%nat -> accepts n conn.
Proof. intros H Hn. unfold accepts. rewrite H. assumption. Qed.

End RefusalFacts.

Import RefusalFacts.

(** X4.  On a transport that takes the command, each fixed-response
    operation puts exactly the bytes of its command on the wire, null or
    newline terminator included, and closes the connection, whatever the
    daemon replies and whether or not the operation then fails. *)
Theorem operation_sends_exact_command
        (op : operation) (c : Client) (conn : Conn) :
  accepts (length (commandOf op)) conn ->
  exists conn',
    connOf op c (inr conn) = Some conn'
    /\ sent conn' = sent conn ++ commandOf op
    /\ closed conn' = true.
Proof.
  intros Ha.
  destruct (commandOf_short op) as [Hne Hlen].
  pose proof (SendCommand_sent c (commandOf op) conn Hne Hlen Ha) as Hs.
  exists (conn_Close (pushed (commandOf op) conn)).
  split; [|split; reflexivity].
  destruct op; cbn [connOf commandOf] in *;
    unfold Clamav.Ping, Clamav.Version, Clamav.Stats, Clamav.VersionCommands,
      Clamav.query, Clamav.Reload, Clamav.Shutdown, Clamav.dialed,
      run, bind, call, look, check, ret, return_;
    rewrite Hs;
    destruct (Clamav.readResponse c conn) as [resp [e|]]; cbn;
    try reflexivity;
    destruct (Clamav.parseResponse (slice resp)); cbn; try reflexivity;
    match goal with |- context [Equal ?a ?b] => destruct (Equal a b) end;
    reflexivity.
Qed.

(** The statement above for a ping on a sound transport. *)
Lemma operation_sends_exact_command_witness :
  accepts (length (commandOf OpPing)) (goodConn (lit "PONG" ++ [NUL]))
  /\ exists conn',
      connOf OpPing tcp (inr (goodConn (lit "PONG" ++ [NUL]))) = Some conn'
      /\ sent conn' = lit "zPING" ++ [NUL]
      /\ closed conn' = true.
Proof.
  split; [exact I|].
  exact (operation_sends_exact_command OpPing tcp (goodConn (lit "PONG" ++ [NUL])) I).
Defined.

(** X5.  When the transport fails with [e] before it has taken the whole
    command, each fixed-response operation fails with [e] wrapped as a flush
    error and a send error, which is a network error when [e] is one; it
    does not read the stream, and the connection is closed with only the
    bytes the transport took. *)
Theorem operation_refused_by_transport
        (op : operation) (c : Client) (conn : Conn) (k : nat) (e : goerror) :
  wroom conn = Some (k, e) ->
  (k < length (commandOf op))%nat ->
  errorOf op c (inr conn)
  = Some (Clamav.sendFailed (Clamav.wrapTo "error while flushing command to " c e))
  /\ isNetError (Clamav.sendFailed (Clamav.wrapTo "error while flushing command to " c e))
     = isNetError e
  /\ exists conn',
      connOf op c (inr conn) = Some conn'
      /\ sent conn' = sent conn ++ firstn k (commandOf op)
      /\ closed conn' = true.
Proof.
  intros Hw Hk.
  destruct (commandOf_short op) as [_ Hlen].
  pose proof (SendCommand_refused c (commandOf op) conn k e Hlen Hw Hk) as Hs.
  split; [|split; [reflexivity|]].
  - destruct op; cbn [errorOf commandOf] in *;
      unfold Clamav.Ping, Clamav.Version, Clamav.Stats, Clamav.VersionCommands,
        Clamav.query, Clamav.Reload, Clamav.Shutdown, Clamav.dialed,
        run, bind, call, look, check, ret, return_;
      rewrite Hs; reflexivity.
  - exists (conn_Close (cut k e (commandOf op) conn)).
    split; [|split; reflexivity].
    destruct op; cbn [connOf commandOf] in *;
      unfold Clamav.Ping, Clamav.Version, Clamav.Stats, Clamav.VersionCommands,
        Clamav.query, Clamav.Reload, Clamav.Shutdown, Clamav.dialed,
        run, bind, call, look, check, ret, return_;
      rewrite Hs; reflexivity.
Qed.

(** The statement above for a reload on a transport that breaks after three
    bytes. *)
Lemma operation_refused_by_transport_witness :
  wroom (mkConn [] (Some (3%nat, brokenPipe)) (lit "RELOADING" ++ [NUL]) io_EOF false)
  = Some (3%nat, brokenPipe)
  /\ (3 < length (commandOf OpReload))%nat
  /\ errorOf OpReload tcp
       (inr (mkConn [] (Some (3%nat, brokenPipe)) (lit "RELOADING" ++ [NUL]) io_EOF false))
     = Some (Clamav.sendFailed
               (Clamav.wrapTo "error while flushing command to " tcp brokenPipe)).
Proof.
  assert (Hk : (3 < length (commandOf OpReload))%nat) by (cbv; lia).
  split; [reflexivity|]. split; [exact Hk|].
  exact (proj1 (operation_refused_by_transport
                  OpReload tcp
                  (mkConn [] (Some (3%nat, brokenPipe)) (lit "RELOADING" ++ [NUL])
                          io_EOF false)
                  3%nat brokenPipe eq_refl Hk)).
Defined.

(** ** The upload *)

Module UploadFacts.
Import GoBytes GoBytesFacts Bufio TransportFacts ClientFacts RefusalFacts Clamav.

Lemma b2z_z2b (z : Z) : b2z (z2b z) = z mod 256.
Proof.
  unfold z2b, b2z.
  assert (Hr : 0 <= z mod 256 < 256) by (apply Z.mod_pos_bound; lia).
  destruct (Byte.of_N (Z.to_N (z mod 256))) as [b|] eqn:E.
  - apply Byte.to_of_N in E. rewrite E. lia.
  - apply Byte.of_N_None_iff in E. lia.
Qed.

(** The connection once the command, the length field, the content and the
    end marker have been written. *)
Lemma InStream_copied_conn (c : Client) (conn : Conn) (r : Reader) (size : Z) :
  0 < size <= 4294967295 -> copySucceeds conn r ->
  snd (InStream c (inr conn) r size)
  = Some (conn_Close
            (pushed [NUL; NUL; NUL; NUL]
               (pushed (content r)
                  (pushed (PutUint32 (uint32 size)) (pushed CmdInstream conn))))).
Proof.
  intros Hsize [Ha He].
  assert (H1 : accepts (length CmdInstream) conn)
    by (eapply accepts_le; [|exact Ha]; simpl; lia).
  pose proof (send_ok CmdInstream conn ltac:(discriminate)
                ltac:(unfold defaultBufSize; simpl; lia) H1) as S1.
  set (conn1 := pushed CmdInstream conn) in *.
  assert (H2 : accepts (4 + (length (content r) + 4)) conn1).
  { apply (accepts_pushed CmdInstream). eapply accepts_le; [|exact Ha]. simpl. lia. }
  pose proof (send_ok (PutUint32 (uint32 size)) conn1 ltac:(discriminate)
                ltac:(unfold defaultBufSize; simpl; lia)
                ltac:(eapply accepts_le; [|exact H2]; simpl; lia)) as S2.
  set (conn2 := pushed (PutUint32 (uint32 size)) conn1) in *.
  assert (H3 : accepts (length (content r) + 4) conn2)
    by (apply (accepts_pushed (PutUint32 (uint32 size))); exact H2).
  pose proof (WriteTo_ok r conn2 ltac:(eapply accepts_le; [|exact H3]; lia) He) as S3.
  set (conn3 := pushed (content r) conn2) in *.
  assert (H4 : accepts 4 conn3) by (apply (accepts_pushed (content r)); exact H3).
  pose proof (send_ok [NUL; NUL; NUL; NUL] conn3 ltac:(discriminate)
                ltac:(unfold defaultBufSize; simpl; lia) H4) as S4.
  open_body.
  send_step S1. rewrite size_checked by assumption.
  send_step S2. rewrite S3. cbn beta iota.
  send_step S4.
  destruct (readResponse c (pushed [NUL; NUL; NUL; NUL] conn3)) as [resp [e|]];
    [reflexivity|].
  destruct (parseResponse (slice resp)) as [perr|]; [|reflexivity].
  destruct (errors_Is perr VirusFound); reflexivity.
Qed.

Lemma InStream_command_refused (c : Client) (conn : Conn) (r : Reader) (size : Z)
      (k : nat) (e : goerror) :
  wroom conn = Some (k, e) -> (k < 10)%nat ->
  InStream c (inr conn) r size
  = ((None, Some (wrapTo "error while flushing command to " c e)),
     Some (conn_Close (cut k e CmdInstream conn))).
Proof.
  intros Hw Hk. open_body.
  rewrite (Write_fits CmdInstream conn ltac:(unfold defaultBufSize; simpl; lia)).
  cbn beta iota.
  rewrite (Flush_refused CmdInstream conn k e Hw ltac:(simpl; lia)).
  reflexivity.
Qed.

Lemma InStream_length_refused (c : Client) (conn : Conn) (r : Reader) (size : Z)
      (k : nat) (e : goerror) :
  0 < size <= 4294967295 ->
  wroom conn = Some (k, e) -> (10 <= k < 14)%nat ->
  InStream c (inr conn) r size
  = ((None, Some (wrapTo "error while flushing data length to " c e)),
     Some (conn_Close (cut (k - 10) e (PutUint32 (uint32 size))
                           (pushed CmdInstream conn)))).
Proof.
  intros Hsize Hw Hk.
  pose proof (send_ok CmdInstream conn ltac:(discriminate)
                ltac:(unfold defaultBufSize; simpl; lia)
                (accepts_wroom (length CmdInstream) k e conn Hw ltac:(simpl; lia))) as S1.
  open_body.
  send_step S1. rewrite size_checked by assumption.
  rewrite (Write_fits (PutUint32 (uint32 size)) _
             ltac:(unfold defaultBufSize; simpl; lia)).
  cbn beta iota.
  rewrite (Flush_refused (PutUint32 (uint32 size)) (pushed CmdInstream conn)
             (k - 10) e (wroom_pushed CmdInstream conn k e Hw) ltac:(simpl; lia)).
  reflexivity.
Qed.

Lemma InStream_marker_refused (c : Client) (conn : Conn) (r : Reader) (size : Z)
      (k : nat) (e : goerror) :
  0 < size <= 4294967295 -> cstop r = io_EOF ->
  wroom conn = Some (k, e) ->
  (14 + length (content r) <= k < 14 + length (content r) + 4)%nat ->
  InStream c (inr conn) r size
  = ((None, Some (wrapTo "error while flushing end of transfer signal to " c e)),
     Some (conn_Close
             (cut (k - 14 - length (content r)) e [NUL; NUL; NUL; NUL]
                  (pushed (content r)
                     (pushed (PutUint32 (uint32 size)) (pushed CmdInstream conn)))))).
Proof.
  intros Hsize He Hw Hk.
  pose proof (send_ok CmdInstream conn ltac:(discriminate)
                ltac:(unfold defaultBufSize; simpl; lia)
                (accepts_wroom (length CmdInstream) k e conn Hw ltac:(simpl; lia))) as S1.
  pose proof (wroom_pushed CmdInstream conn k e Hw) as Hw1.
  set (conn1 := pushed CmdInstream conn) in *.
  pose proof (send_ok (PutUint32 (uint32 size)) conn1 ltac:(discriminate)
                ltac:(unfold defaultBufSize; simpl; lia)
                (accepts_wroom (length (PutUint32 (uint32 size))) _ e conn1 Hw1
                               ltac:(simpl; lia))) as S2.
  pose proof (wroom_pushed (PutUint32 (uint32 size)) conn1 _ e Hw1) as Hw2.
  set (conn2 := pushed (PutUint32 (uint32 size)) conn1) in *.
  pose proof (WriteTo_ok r conn2
                (accepts_wroom (length (content r)) _ e conn2 Hw2
                               ltac:(simpl; lia)) He) as S3.
  pose proof (wroom_pushed (content r) conn2 _ e Hw2) as Hw3.
  set (conn3 := pushed (content r) conn2) in *.
  open_body.
  send_step S1. rewrite size_checked by assumption.
  send_step S2. rewrite S3. cbn beta iota.
  rewrite (Write_fits [NUL; NUL; NUL; NUL] conn3
             ltac:(unfold defaultBufSize; simpl; lia)).
  cbn beta iota.
  rewrite (Flush_refused [NUL; NUL; NUL; NUL] conn3 _ e Hw3 ltac:(simpl in *; lia)).
  cbn beta iota. do 4 f_equal. simpl. lia.
Qed.

End UploadFacts.

Import UploadFacts.

(** X6.  On a transport that takes everything, with a valid declared size
    and a content that ends regularly, [InStream] puts on the wire the start
    command, the declared size as four bytes, the content as it is and four
    null bytes, in this order and nothing else, and closes the connection,
    whatever the daemon replies.  The declared size is sent as given: it is
    not compared with the length of the content. *)
Theorem InStream_wire_format
        (c : Client) (conn : Conn) (r : Reader) (size : Z) :
  0 < size <= 4294967295 ->
  copySucceeds conn r ->
  exists conn',
    snd (Clamav.InStream c (inr conn) r size) = Some conn'
    /\ sent conn'
       = sent conn ++ CmdInstream ++ PutUint32 (uint32 size) ++ content r
                   ++ [NUL; NUL; NUL; NUL]
    /\ closed conn' = true.
Proof.
  intros Hsize Hok. eexists. split.
  - apply InStream_copied_conn; assumption.
  - split; [|reflexivity]. cbn [sent conn_Close pushed].
    rewrite <- !app_assoc. reflexivity.
Qed.

(** The statement above for five bytes declared as seven. *)
Lemma InStream_wire_format_witness :
  (0 < 7 <= 4294967295)
  /\ copySucceeds (goodConn (lit "stream: OK" ++ [NUL])) (mkReader (lit "hello") io_EOF)
  /\ exists conn',
      snd (Clamav.InStream tcp (inr (goodConn (lit "stream: OK" ++ [NUL])))
                           (mkReader (lit "hello") io_EOF) 7)
      = Some conn'
      /\ sent conn'
         = lit "zINSTREAM" ++ [NUL] ++ [NUL; NUL; NUL; "007"%byte] ++ lit "hello"
               ++ [NUL; NUL; NUL; NUL]
      /\ closed conn' = true.
Proof.
  assert (Hs : 0 < 7 <= 4294967295) by lia.
  assert (Hc : copySucceeds (goodConn (lit "stream: OK" ++ [NUL]))
                            (mkReader (lit "hello") io_EOF))
    by (split; [exact I|reflexivity]).
  split; [exact Hs|]. split; [exact Hc|].
  exact (InStream_wire_format tcp (goodConn (lit "stream: OK" ++ [NUL]))
                              (mkReader (lit "hello") io_EOF) 7 Hs Hc).
Defined.

(** X7.  The length field that [InStream] writes for a valid declared size is
    four bytes long and denotes that size in network byte order. *)
Theorem length_field_denotes_size (size : Z) :
  0 < size <= 4294967295 ->
  length (PutUint32 (uint32 size)) = 4%nat
  /\ bigEndian (PutUint32 (uint32 size)) = size.
Proof.
  intros Hsize. split; [reflexivity|].
  unfold bigEndian, PutUint32, uint32. cbn [fold_left].
  rewrite !b2z_z2b, !Z.shiftr_div_pow2 by lia.
  rewrite (Z.mod_small size (2 ^ 32)) by lia.
  change (2 ^ 24) with 16777216. change (2 ^ 16) with 65536.
  change (2 ^ 8) with 256.
  Z.div_mod_to_equations. lia.
Qed.

(** The statement above for a size of 65537. *)
Lemma length_field_denotes_size_witness :
  (0 < 65537 <= 4294967295)
  /\ PutUint32 (uint32 65537) = [NUL; "001"%byte; NUL; "001"%byte]
  /\ bigEndian (PutUint32 (uint32 65537)) = 65537.
Proof.
  assert (Hs : 0 < 65537 <= 4294967295) by lia.
  split; [exact Hs|]. split; [reflexivity|].
  exact (proj2 (length_field_denotes_size 65537 Hs)).
Defined.

(** X8.  When the transport fails with [e] outside the copy of the content,
    [InStream] returns that error alone, wrapped under the name of the step,
    and does not read the daemon's reply: under the command step when fewer
    than 10 bytes are taken (even for an invalid size, which is then not
    reported), under the length step when 10 to 13 are taken, and under the
    end-marker step when the whole content is taken but not the four null
    bytes that follow it. *)
Theorem InStream_transport_failure_steps
        (c : Client) (conn : Conn) (r : Reader) (size : Z) (k : nat) (e : goerror) :
  wroom conn = Some (k, e) ->
  ((k < 10)%nat ->
   fst (Clamav.InStream c (inr conn) r size)
   = (None, Some (Clamav.wrapTo "error while flushing command to " c e)))
  /\ (0 < size <= 4294967295 -> (10 <= k < 14)%nat ->
      fst (Clamav.InStream c (inr conn) r size)
      = (None, Some (Clamav.wrapTo "error while flushing data length to " c e)))
  /\ (0 < size <= 4294967295 -> cstop r = io_EOF ->
      (14 + length (content r) <= k < 14 + length (content r) + 4)%nat ->
      fst (Clamav.InStream c (inr conn) r size)
      = (None,
         Some (Clamav.wrapTo "error while flushing end of transfer signal to " c e))
      /\ exists conn',
          snd (Clamav.InStream c (inr conn) r size) = Some conn'
          /\ sent conn'
             = sent conn ++ CmdInstream ++ PutUint32 (uint32 size) ++ content r
                         ++ firstn (k - 14 - length (content r)) [NUL; NUL; NUL; NUL]).
Proof.
  intros Hw. split; [|split].
  - intros Hk. rewrite (InStream_command_refused c conn r size k e Hw Hk).
    reflexivity.
  - intros Hsize Hk.
    rewrite (InStream_length_refused c conn r size k e Hsize Hw Hk). reflexivity.
  - intros Hsize He Hk.
    rewrite (InStream_marker_refused c conn r size k e Hsize He Hw Hk).
    split; [reflexivity|]. eexists. split; [reflexivity|].
    cbn [sent conn_Close cut pushed]. rewrite <- !app_assoc. reflexivity.
Qed.

(** The statement above for a transport that breaks within the end marker,
    the daemon having already reported a detection. *)
Lemma InStream_transport_failure_steps_witness :
  wroom (mkConn [] (Some (20%nat, brokenPipe)) (lit "stream: X FOUND" ++ [NUL])
                io_EOF false)
  = Some (20%nat, brokenPipe)
  /\ fst (Clamav.InStream
            tcp
            (inr (mkConn [] (Some (20%nat, brokenPipe)) (lit "stream: X FOUND" ++ [NUL])
                         io_EOF false))
            (mkReader (lit "hello") io_EOF) 5)
     = (None,
        Some (Clamav.wrapTo "error while flushing end of transfer signal to "
                            tcp brokenPipe)).
Proof.
  split; [reflexivity|].
  refine (proj1 (proj2 (proj2 (InStream_transport_failure_steps
                                 tcp
                                 (mkConn [] (Some (20%nat, brokenPipe))
                                         (lit "stream: X FOUND" ++ [NUL]) io_EOF false)
                                 (mkReader (lit "hello") io_EOF) 5
                                 20%nat brokenPipe eq_refl)) _ eq_refl _)).
  - lia.
  - cbv. lia.
Defined.

(** ** Reading, the update utility, the signature *)

Module ReadFacts.
Import GoBytes GoBytesFacts Bufio TransportFacts ClientFacts Clamav.

Lemma before_no_delim (delim : byte) (data : bytes) : ~ In delim (before delim data).
Proof.
  induction data as [|x rest IH]; [intros []|].
  cbn [before]. destruct (Byte.eqb x delim) eqn:E; [intros []|].
  intros [->|H]; [|contradiction].
  rewrite (Byte.byte_dec_lb eq_refl) in E. discriminate.
Qed.

Lemma before_prefix (delim : byte) (data : bytes) :
  exists rest, data = before delim data ++ rest.
Proof.
  induction data as [|x tl [rest IH]]; [exists []; reflexivity|].
  cbn [before]. destruct (Byte.eqb x delim).
  - exists (x :: tl). reflexivity.
  - exists rest. simpl. rewrite <- IH. reflexivity.
Qed.

Lemma before_app_delim (delim : byte) (x rest : bytes) :
  ~ In delim x -> before delim (x ++ delim :: rest) = x.
Proof.
  induction x as [|y x IH]; intros N; cbn [before app].
  - rewrite (Byte.byte_dec_lb eq_refl). reflexivity.
  - destruct (Byte.eqb y delim) eqn:E.
    + apply Byte.byte_dec_bl in E. exfalso. apply N. left. assumption.
    + rewrite IH; [reflexivity|]. intros I. apply N. right. assumption.
Qed.

Lemma Contains_iff (s sub : bytes) : Contains s sub = true <-> occursIn sub s.
Proof.
  unfold occursIn. split.
  - induction s as [|x s IH]; cbn [Contains]; intros H;
      apply orb_true_iff in H as [H|H]; try discriminate.
    + apply HasPrefix_iff in H as [r ->]. exists [], r. reflexivity.
    + apply HasPrefix_iff in H as [r ->]. exists [], r. reflexivity.
    + destruct (IH H) as [a [b ->]]. exists (x :: a), b. reflexivity.
  - intros [a [b ->]]. induction a as [|x a IH].
    + destruct (sub ++ b) eqn:E; cbn [Contains app]; apply orb_true_iff; left;
        apply HasPrefix_iff; exists b; simpl; congruence.
    + cbn [Contains app]. apply orb_true_iff. right. exact IH.
Qed.

End ReadFacts.

Module SignatureFacts.
Import GoBytes Controllers ControllersFacts.

Lemma TrimLeft_split (s cutset : bytes) :
  exists a,
    s = a ++ TrimLeft s cutset
    /\ allIn cutset a
    /\ (TrimLeft s cutset <> [] ->
        inCutset cutset (hd NUL (TrimLeft s cutset)) = false).
Proof.
  induction s as [|x s [a [Hs [Ha Hh]]]].
  - exists []. repeat split; [constructor|]. intros H. contradiction.
  - cbn [TrimLeft]. destruct (inCutset cutset x) eqn:E.
    + exists (x :: a). split; [simpl; congruence|].
      split; [constructor; assumption|assumption].
    + exists []. repeat split; [constructor|]. intros _. exact E.
Qed.

Lemma allIn_rev (cutset s : bytes) : allIn cutset s -> allIn cutset (rev s).
Proof. unfold allIn. apply Forall_rev. Qed.

Lemma hd_rev_last (s : bytes) : hd NUL (rev s) = last s NUL.
Proof.
  destruct s as [|x s] using rev_ind; [reflexivity|].
  rewrite rev_app_distr, last_last. reflexivity.
Qed.

Lemma TrimRight_split (s cutset : bytes) :
  exists b,
    s = TrimRight s cutset ++ b
    /\ allIn cutset b
    /\ (TrimRight s cutset <> [] ->
        inCutset cutset (last (TrimRight s cutset) NUL) = false).
Proof.
  unfold TrimRight.
  destruct (TrimLeft_split (rev s) cutset) as [a [Hs [Ha Hh]]].
  exists (rev a). split; [|split].
  - rewrite <- rev_app_distr, <- Hs, rev_involutive. reflexivity.
  - apply allIn_rev. assumption.
  - intros Hne. rewrite <- hd_rev_last, rev_involutive. apply Hh.
    intros E. apply Hne. rewrite E. reflexivity.
Qed.

Lemma last_app_nonempty (a s : bytes) : s <> [] -> last (a ++ s) NUL = last s NUL.
Proof.
  intros Hne. destruct (exists_last Hne) as [m [z ->]].
  rewrite app_assoc, !last_last. reflexivity.
Qed.

End SignatureFacts.

Import ReadFacts SignatureFacts.

(** X9.  [readResponse] returns either a response and no error or an error
    and no response.  A response is the part of the stream before its first
    null byte, or all of it when the stream ends with [io.EOF] before any: it
    holds no null byte and begins the stream.  The error comes exactly when
    the stream ends on another error before any null byte, and the bytes
    received until then are dropped. *)
Theorem readResponse_response_or_error (c : Client) (conn : Conn) :
  (exists resp,
      Clamav.readResponse c conn = (Some resp, None)
      /\ resp = before NUL (incoming conn)
      /\ ~ In NUL resp
      /\ (exists rest, incoming conn = resp ++ rest)
      /\ (In NUL (incoming conn) \/ is_EOF (rstop conn) = true))
  \/ (Clamav.readResponse c conn
      = (None, Some (Clamav.wrapTo "error while reading response from " c (rstop conn)))
      /\ ~ In NUL (incoming conn)
      /\ is_EOF (rstop conn) = false).
Proof.
  destruct (in_dec Byte.byte_eq_dec NUL (incoming conn)) as [Hin|Hnot].
  - left. exists (before NUL (incoming conn)).
    split; [apply readResponse_terminated; assumption|].
    split; [reflexivity|]. split; [apply before_no_delim|].
    split; [apply before_prefix|left; assumption].
  - rewrite readResponse_unterminated by assumption.
    destruct (is_EOF (rstop conn)) eqn:E.
    + left. exists (incoming conn). rewrite before_absent by assumption.
      split; [reflexivity|]. split; [reflexivity|]. split; [assumption|].
      split; [exists []; symmetry; apply app_nil_r|right; reflexivity].
    + right. auto.
Qed.

(** X10.  When the update utility fails while the context is live,
    [FreshClam] forgives the failure exactly when the captured output holds
    ["Database updated"], ["up to date"] or
    ["Your ClamAV installation is OUTDATED"], letter case included;
    otherwise it returns the output with the process error wrapped as a
    failure.  The update handler answers 200 in the first case and 500 in the
    second, with the output in the body both times. *)
Theorem FreshClam_failure_forgiven (output : option bytes) (e : goerror) :
  let forgiven :=
      occursIn (lit "Database updated") (slice output)
      \/ occursIn (lit "up to date") (slice output)
      \/ occursIn (lit "Your ClamAV installation is OUTDATED") (slice output) in
  (forgiven -> Clamav.FreshClam None output (Some e) = (output, None))
  /\ (~ forgiven ->
      Clamav.FreshClam None output (Some e)
      = (output, Some (Wrapf (lit "freshclam command failed: ") e [])))
  /\ (forgiven ->
      Handlers.FreshClam (Clamav.FreshClam None output (Some e))
      = (200, Handlers.FreshClamBody
                (lit "success") (lit "virus definitions updated successfully")
                (slice output)))
  /\ (~ forgiven ->
      Handlers.FreshClam (Clamav.FreshClam None output (Some e))
      = (500, Handlers.FreshClamBody
                (lit "error") (lit "freshclam update failed") (slice output))).
Proof.
  intros forgiven.
  assert (H : GoBytes.Contains (slice output) (lit "Database updated")
              || GoBytes.Contains (slice output) (lit "up to date")
              || GoBytes.Contains (slice output)
                                  (lit "Your ClamAV installation is OUTDATED") = true
              <-> forgiven).
  { rewrite !orb_true_iff, !Contains_iff. unfold forgiven. tauto. }
  unfold Clamav.FreshClam.
  destruct (_ || _).
  - assert forgiven by (apply H; reflexivity).
    repeat split; try reflexivity; intros; contradiction.
  - assert (~ forgiven) by (intros Habs; apply H in Habs; discriminate).
    repeat split; try reflexivity; intros; contradiction.
Qed.

(** X11.  [parseSignature] cuts its argument in three: what it returns is
    preceded only by characters of ["stream: "] and followed only by
    characters of [" FOUND"], and when it is not empty it neither begins with a
    character of the first set nor ends with one of the second.  It removes
    nothing from the middle and adds nothing. *)
Theorem parseSignature_cuts (msg : bytes) :
  exists a b,
    msg = a ++ Controllers.parseSignature msg ++ b
    /\ allIn (lit "stream: ") a
    /\ allIn (lit " FOUND") b
    /\ (Controllers.parseSignature msg <> [] ->
        GoBytes.inCutset (lit "stream: ") (hd NUL (Controllers.parseSignature msg)) = false
        /\ GoBytes.inCutset (lit " FOUND") (last (Controllers.parseSignature msg) NUL)
           = false).
Proof.
  unfold Controllers.parseSignature.
  destruct (TrimRight_split msg (lit " FOUND")) as [b [Hb [Hbin Hlast]]].
  destruct (TrimLeft_split (GoBytes.TrimRight msg (lit " FOUND")) (lit "stream: "))
    as [a [Ha [Hain Hhd]]].
  exists a, b. split; [|split; [assumption|split; [assumption|]]].
  - rewrite app_assoc, <- Ha. exact Hb.
  - intros Hne. split; [apply Hhd; assumption|].
    rewrite <- (last_app_nonempty a _ Hne), <- Ha. apply Hlast.
    intros E. apply Hne. rewrite E. reflexivity.
Qed.

(** ** The endpoints *)

Module EndpointFacts.
Import GoBytes GoBytesFacts Bufio TransportFacts ClientFacts ClassifyFacts Clamav.

Lemma net_error_is_no_sentinel (e : goerror) (k : sentinel) :
  isNetError e = true -> k <> DeadlineExceeded -> errors_Is e k = false.
Proof.
  induction e as [s|n m|pre w IH post|m]; simpl; intros H Hk; auto.
  destruct s; try discriminate. destruct k; try reflexivity. contradiction.
Qed.

Lemma failWith_net (e : goerror) :
  isNetError e = true ->
  Handlers.failWith (Handlers.ClientError e)
  = (502, Handlers.ErrorBody
            (Handlers.NewErrorResponse
               (lit "something wrong happened while communicating with clamav"))).
Proof.
  intros H. unfold Handlers.failWith, Handlers.SetErrorResponse.
  cbn [Handlers.isNetErrorH]. rewrite H. reflexivity.
Qed.

(** What an exchange gives when the transport takes the command. *)
Lemma query_answered (cmd : Command) (c : Client) (conn : Conn) (resp : bytes) :
  cmd <> [] -> (length cmd <= defaultBufSize)%nat -> accepts (length cmd) conn ->
  readResponse c conn = (Some resp, None) ->
  fst (query cmd c (inr conn))
  = match parseResponse resp with
    | Some perr => (None, Some (fromClamav perr))
    | None => (Some resp, None)
    end.
Proof.
  intros Hne Hlen Ha Hr.
  pose proof (SendCommand_sent c cmd conn Hne Hlen Ha) as Hs. rewrite Hr in Hs.
  unfold query, dialed, run, bind, call, look, check, ret, return_.
  rewrite Hs. cbn [slice].
  destruct (parseResponse resp); reflexivity.
Qed.

Lemma Reload_answered (c : Client) (conn : Conn) (resp : bytes) :
  accepts (length CmdReload) conn ->
  readResponse c conn = (Some resp, None) ->
  fst (Reload c (inr conn))
  = match parseResponse resp with
    | Some perr => Some (fromClamav perr)
    | None =>
      if Equal resp RespReload then None
      else Some (Wrapf (lit "error from clamav: ") ErrUnexpectedResponse
                       (lit ". Expected " ++ RespReload ++ lit " but got " ++ resp))
    end.
Proof.
  intros Ha Hr.
  pose proof (SendCommand_sent c CmdReload conn ltac:(discriminate)
                ltac:(unfold defaultBufSize; simpl; lia) Ha) as Hs.
  rewrite Hr in Hs.
  unfold Reload, dialed, run, bind, call, look, check, ret, return_.
  rewrite Hs. cbn [slice].
  destruct (parseResponse resp); [reflexivity|].
  destruct (Equal resp RespReload); reflexivity.
Qed.

Lemma Shutdown_answered (c : Client) (conn : Conn) :
  accepts (length CmdShutdown) conn ->
  fst (Shutdown c (inr conn))
  = match readResponse c conn with
    | (_, Some e) => Some (sendFailed e)
    | (_, None) => None
    end.
Proof.
  intros Ha.
  pose proof (SendCommand_sent c CmdShutdown conn ltac:(discriminate)
                ltac:(unfold defaultBufSize; simpl; lia) Ha) as Hs.
  unfold Shutdown, dialed, run, bind, call, look, check, ret, return_.
  rewrite Hs. destruct (readResponse c conn) as [resp [e|]]; reflexivity.
Qed.

End EndpointFacts.

Import EndpointFacts.

(** X12.  A detection reported after a complete upload reaches the caller of
    the scan endpoint with its signature: for a reply
    ["stream: " ++ s ++ " FOUND"], [s] holding no null byte, not beginning
    with a character of ["stream: "] and not ending with one of [" FOUND"],
    the endpoint answers 200 with [virus_found] true and the signature [s]. *)
Theorem scan_endpoint_reports_signature
        (c : Client) (conn : Conn) (r : Reader) (size : Z) (s rest : bytes) :
  0 < size <= 4294967295 ->
  copySucceeds conn r ->
  incoming conn = lit "stream: " ++ s ++ lit " FOUND" ++ NUL :: rest ->
  s <> [] ->
  ~ In NUL s ->
  GoBytes.inCutset (lit "stream: ") (hd NUL s) = false ->
  GoBytes.inCutset (lit " FOUND") (last s NUL) = false ->
  Handlers.InStream (fun f n => fst (Clamav.InStream c (inr conn) f n))
                    (inr (inr (r, size)))
  = (200, Handlers.ScanBody
            (Controllers.mkInStreamResponse
               (lit "error") (lit "file contains potential virus") s true)).
Proof.
  intros Hsize Hok Hin Hne Hnul Hhd Hlast.
  assert (Hr : Clamav.readResponse c conn
               = (Some (lit "stream: " ++ s ++ lit " FOUND"), None)).
  { rewrite readResponse_terminated
      by (rewrite Hin; rewrite !in_app_iff; right; right; right; left; reflexivity).
    rewrite Hin.
    replace (lit "stream: " ++ s ++ lit " FOUND" ++ NUL :: rest)
      with ((lit "stream: " ++ s ++ lit " FOUND") ++ NUL :: rest)
      by (rewrite <- !app_assoc; reflexivity).
    rewrite before_app_delim; [reflexivity|].
    rewrite !in_app_iff. intros [H|[H|H]]; [|contradiction|].
    - revert H. apply before_no_delim with (data := lit "stream: ").
    - revert H. apply before_no_delim with (data := lit " FOUND"). }
  unfold Handlers.InStream. cbn beta iota.
  rewrite (InStream_copied c conn r size Hsize Hok).
  unfold answered. rewrite Hr. cbn [slice].
  rewrite parseResponse_detection.
  cbn [errors_Is ErrVirusFound sentinel_eqb Controllers.respond slice].
  rewrite (ControllersFacts.parseSignature_exact s Hne Hhd Hlast).
  reflexivity.
Qed.

(** The statement above for the signature of the EICAR test file. *)
Lemma scan_endpoint_reports_signature_witness :
  Handlers.InStream
    (fun f n => fst (Clamav.InStream
                       tcp (inr (goodConn (lit "stream: Win.Test.EICAR_HDB-1 FOUND"
                                               ++ [NUL]))) f n))
    (inr (inr (mkReader (lit "X5O!P%@AP") io_EOF, 9)))
  = (200, Handlers.ScanBody
            (Controllers.mkInStreamResponse
               (lit "error") (lit "file contains potential virus")
               (lit "Win.Test.EICAR_HDB-1") true)).
Proof.
  apply (scan_endpoint_reports_signature
           tcp (goodConn (lit "stream: Win.Test.EICAR_HDB-1 FOUND" ++ [NUL]))
           (mkReader (lit "X5O!P%@AP") io_EOF) 9 (lit "Win.Test.EICAR_HDB-1") []).
  - lia.
  - split; [exact I|reflexivity].
  - reflexivity.
  - discriminate.
  - apply before_no_delim with (data := lit "Win.Test.EICAR_HDB-1").
  - reflexivity.
  - reflexivity.
Defined.

(** X13.  The scan endpoint reports a clean scan for every reply that
    classifies to no error, whatever its text: after a complete upload it
    answers 200 with status ["noerror"], message ["stream: OK"] and
    [virus_found] false, and the reply itself is not looked at again. *)
Theorem scan_endpoint_clean_for_unclassified_reply
        (c : Client) (conn : Conn) (r : Reader) (size : Z) (resp : bytes) :
  0 < size <= 4294967295 ->
  copySucceeds conn r ->
  Clamav.readResponse c conn = (Some resp, None) ->
  Clamav.parseResponse resp = None ->
  Handlers.InStream (fun f n => fst (Clamav.InStream c (inr conn) f n))
                    (inr (inr (r, size)))
  = (200, Handlers.ScanBody
            (Controllers.mkInStreamResponse (lit "noerror") (lit "stream: OK") [] false)).
Proof.
  intros Hsize Hok Hr Hp.
  unfold Handlers.InStream. cbn beta iota.
  rewrite (InStream_copied c conn r size Hsize Hok).
  unfold answered. rewrite Hr. cbn [slice]. rewrite Hp. reflexivity.
Qed.

(** The statement above for a daemon that reports an error of its own. *)
Lemma scan_endpoint_clean_for_unclassified_reply_witness :
  Clamav.parseResponse (lit "Error processing command. ERROR") = None
  /\ Handlers.InStream
       (fun f n => fst (Clamav.InStream
                          tcp (inr (goodConn (lit "Error processing command. ERROR"
                                                  ++ [NUL]))) f n))
       (inr (inr (mkReader (lit "hello") io_EOF, 5)))
     = (200, Handlers.ScanBody
               (Controllers.mkInStreamResponse
                  (lit "noerror") (lit "stream: OK") [] false)).
Proof.
  split; [reflexivity|].
  apply (scan_endpoint_clean_for_unclassified_reply
           tcp (goodConn (lit "Error processing command. ERROR" ++ [NUL]))
           (mkReader (lit "hello") io_EOF) 5 (lit "Error processing command. ERROR")).
  - lia.
  - split; [exact I|reflexivity].
  - reflexivity.
  - reflexivity.
Defined.

(** X14.  When the copy of the content fails and the reply already sent is a
    detection, the scan endpoint still answers 200 with [virus_found] true,
    but with an empty signature: [InStream] discards the reply on that path
    and the handler parses the signature out of a nil payload. *)
Theorem scan_endpoint_detection_after_failed_copy
        (c : Client) (conn : Conn) (r : Reader) (size : Z) (ce : goerror)
        (resp : bytes) :
  0 < size <= 4294967295 ->
  copyFails conn r ce ->
  Clamav.readResponse c conn = (Some resp, None) ->
  Clamav.parseResponse resp = Some ErrVirusFound ->
  fst (Clamav.InStream c (inr conn) r size)
  = (None, Some (Clamav.fromClamav ErrVirusFound))
  /\ Handlers.InStream (fun f n => fst (Clamav.InStream c (inr conn) f n))
                       (inr (inr (r, size)))
     = (200, Handlers.ScanBody
               (Controllers.mkInStreamResponse
                  (lit "error") (lit "file contains potential virus") [] true)).
Proof.
  intros Hsize Hfail Hr Hp.
  unfold Handlers.InStream. cbn beta iota.
  rewrite (InStream_interrupted c conn r size ce Hsize Hfail).
  unfold recovered. rewrite Hr. cbn [slice]. rewrite Hp.
  split; reflexivity.
Qed.

(** The statement above for a transport that breaks two bytes into the
    content. *)
Lemma scan_endpoint_detection_after_failed_copy_witness :
  Handlers.InStream
    (fun f n => fst (Clamav.InStream
                       tcp (inr (mkConn [] (Some (16%nat, brokenPipe))
                                        (lit "stream: Eicar-Signature FOUND" ++ [NUL])
                                        io_EOF false)) f n))
    (inr (inr (mkReader (lit "hello") io_EOF, 5)))
  = (200, Handlers.ScanBody
            (Controllers.mkInStreamResponse
               (lit "error") (lit "file contains potential virus") [] true)).
Proof.
  refine (proj2 (scan_endpoint_detection_after_failed_copy
                   tcp
                   (mkConn [] (Some (16%nat, brokenPipe))
                           (lit "stream: Eicar-Signature FOUND" ++ [NUL]) io_EOF false)
                   (mkReader (lit "hello") io_EOF) 5 brokenPipe
                   (lit "stream: Eicar-Signature FOUND") _ _ eq_refl eq_refl)).
  - lia.
  - left. split; [cbv; lia|]. exists 16%nat. split; [reflexivity|cbv; lia].
Defined.

(** X15.  An upload whose size is 0 (an empty file) or above 4294967295 makes
    the scan endpoint answer 500, not 400, with the validation message as
    the error text, once the connection has been dialed and the start command
    sent. *)
Theorem scan_endpoint_invalid_size
        (c : Client) (conn : Conn) (r : Reader) (size : Z) :
  size <= 0 \/ 4294967295 < size ->
  accepts (length CmdInstream) conn ->
  Handlers.InStream (fun f n => fst (Clamav.InStream c (inr conn) f n))
                    (inr (inr (r, size)))
  = (500, Handlers.ErrorBody
            (Handlers.NewErrorResponse
               (lit "file size " ++ fmt_d size ++ lit " exceeds maximum allowed size"))).
Proof.
  intros Hsize Ha. unfold Handlers.InStream. cbn beta iota.
  rewrite (InStream_rejected c conn r size Hsize Ha). reflexivity.
Qed.

(** The statement above for an empty file. *)
Lemma scan_endpoint_invalid_size_witness :
  Handlers.InStream
    (fun f n => fst (Clamav.InStream tcp (inr (goodConn [])) f n))
    (inr (inr (mkReader [] io_EOF, 0)))
  = (500, Handlers.ErrorBody
            (Handlers.NewErrorResponse
               (lit "file size 0 exceeds maximum allowed size"))).
Proof.
  apply (scan_endpoint_invalid_size tcp (goodConn []) (mkReader [] io_EOF) 0).
  - left. lia.
  - exact I.
Defined.

(** X16.  When the daemon cannot be reached and the dial error is a network
    error, the ping, version, reload, shutdown and scan endpoints all answer
    502 with the same fixed message, and nothing of the dial error is
    disclosed. *)
Theorem endpoints_bad_gateway_on_dial_failure
        (c : Client) (e : goerror) (r : Reader) (size : Z) :
  isNetError e = true ->
  let badGateway :=
      (502, Handlers.ErrorBody
              (Handlers.NewErrorResponse
                 (lit "something wrong happened while communicating with clamav"))) in
  Handlers.Ping (fst (Clamav.Ping c (inl e))) = badGateway
  /\ Handlers.Version (fst (Clamav.Version c (inl e))) = badGateway
  /\ Handlers.Reload (fst (Clamav.Reload c (inl e))) = badGateway
  /\ Handlers.Shutdown (fst (Clamav.Shutdown c (inl e))) = badGateway
  /\ Handlers.InStream (fun f n => fst (Clamav.InStream c (inl e) f n))
                       (inr (inr (r, size)))
     = badGateway.
Proof.
  intros Hnet badGateway.
  assert (H1 : Handlers.failWith (Handlers.ClientError (Clamav.connectFailed e))
               = badGateway) by (apply failWith_net; exact Hnet).
  repeat split; try exact H1.
  unfold Handlers.InStream, Clamav.InStream, Clamav.dialed, Controllers.respond.
  cbn [fst]. cbn [errors_Is Clamav.wrapTo].
  rewrite (net_error_is_no_sentinel e VirusFound Hnet) by discriminate.
  apply failWith_net. exact Hnet.
Qed.

(** The statement above for a refused connection. *)
Lemma endpoints_bad_gateway_on_dial_failure_witness :
  isNetError (External true (lit "dial tcp: connection refused")) = true
  /\ Handlers.Ping
       (fst (Clamav.Ping tcp (inl (External true (lit "dial tcp: connection refused")))))
     = (502, Handlers.ErrorBody
               (Handlers.NewErrorResponse
                  (lit "something wrong happened while communicating with clamav"))).
Proof.
  split; [reflexivity|].
  exact (proj1 (endpoints_bad_gateway_on_dial_failure
                  tcp (External true (lit "dial tcp: connection refused"))
                  (mkReader [] io_EOF) 1 eq_refl)).
Defined.

(** X17.  Once the exchange has given the trimmed reply, the reload endpoint
    answers 200 exactly when the reply is ["RELOADING"], and 500 otherwise;
    for a reply that classifies to no error the error text is
    ["unexpected response from clamav"], without the expected and actual
    texts that the client's error carries. *)
Theorem reload_endpoint_status
        (c : Client) (conn : Conn) (resp : bytes) :
  accepts (length CmdReload) conn ->
  Clamav.readResponse c conn = (Some resp, None) ->
  (resp = RespReload ->
   Handlers.Reload (fst (Clamav.Reload c (inr conn)))
   = (200, Handlers.StatusBody (lit "Reloading")))
  /\ (resp <> RespReload ->
      fst (Handlers.Reload (fst (Clamav.Reload c (inr conn)))) = 500)
  /\ (resp <> RespReload -> Clamav.parseResponse resp = None ->
      Handlers.Reload (fst (Clamav.Reload c (inr conn)))
      = (500, Handlers.ErrorBody
                (Handlers.NewErrorResponse (lit "unexpected response from clamav")))).
Proof.
  intros Ha Hr. rewrite (Reload_answered c conn resp Ha Hr).
  split; [|split].
  - intros ->. reflexivity.
  - intros Hne.
    destruct (Clamav.parseResponse resp) as [perr|] eqn:Hp.
    + destruct (parseResponse_cases resp perr Hp) as [-> | [-> | ->]]; reflexivity.
    + destruct (Equal resp RespReload) eqn:E; [|reflexivity].
      apply Equal_eq in E. contradiction.
  - intros Hne Hp. rewrite Hp.
    destruct (Equal resp RespReload) eqn:E; [|reflexivity].
    apply Equal_eq in E. contradiction.
Qed.

(** The statement above for a reload answered with ["OK"]. *)
Lemma reload_endpoint_status_witness :
  accepts (length CmdReload) (goodConn (lit "OK" ++ [NUL]))
  /\ Clamav.readResponse tcp (goodConn (lit "OK" ++ [NUL])) = (Some (lit "OK"), None)
  /\ Handlers.Reload (fst (Clamav.Reload tcp (inr (goodConn (lit "OK" ++ [NUL])))))
     = (500, Handlers.ErrorBody
               (Handlers.NewErrorResponse (lit "unexpected response from clamav"))).
Proof.
  split; [exact I|]. split; [reflexivity|].
  exact (proj2 (proj2 (reload_endpoint_status
                         tcp (goodConn (lit "OK" ++ [NUL])) (lit "OK") I eq_refl))
               ltac:(discriminate) eq_refl).
Defined.

(** X18.  The shutdown endpoint answers 200 ["Shutting down"] as soon as the
    command has been sent and the stream gives a null byte or ends: what the
    daemon replied, an error message included, plays no part. *)
Theorem shutdown_endpoint_ignores_reply (c : Client) (conn : Conn) :
  accepts (length CmdShutdown) conn ->
  In NUL (incoming conn) \/ rstop conn = io_EOF ->
  Handlers.Shutdown (fst (Clamav.Shutdown c (inr conn)))
  = (200, Handlers.StatusBody (lit "Shutting down")).
Proof.
  intros Ha Hend. rewrite (Shutdown_answered c conn Ha).
  destruct (in_dec Byte.byte_eq_dec NUL (incoming conn)) as [Hin|Hnot].
  - rewrite readResponse_terminated by assumption. reflexivity.
  - destruct Hend as [Hin|Heof]; [contradiction|].
    rewrite readResponse_unterminated by assumption.
    rewrite Heof. reflexivity.
Qed.

(** The statement above for a daemon that answers that it does not know the
    command. *)
Lemma shutdown_endpoint_ignores_reply_witness :
  accepts (length CmdShutdown) (goodConn (RespErrUnknownCommand ++ [NUL]))
  /\ (In NUL (incoming (goodConn (RespErrUnknownCommand ++ [NUL])))
      \/ rstop (goodConn (RespErrUnknownCommand ++ [NUL])) = io_EOF)
  /\ Handlers.Shutdown
       (fst (Clamav.Shutdown tcp (inr (goodConn (RespErrUnknownCommand ++ [NUL])))))
     = (200, Handlers.StatusBody (lit "Shutting down")).
Proof.
  split; [exact I|]. split; [right; reflexivity|].
  exact (shutdown_endpoint_ignores_reply
           tcp (goodConn (RespErrUnknownCommand ++ [NUL])) I (or_intror eq_refl)).
Defined.

(** X19.  A reply that classifies to an error makes the ping and version
    endpoints answer 500, with a text that depends on the kind: a fixed one
    for [UnknownCommand], the client's error text after ["clamav: "] for
    [SizeLimitExceeded], and the client's error text as it is for a
    detection. *)
Theorem query_endpoints_daemon_errors
        (c : Client) (conn : Conn) (resp : bytes) (perr : goerror) :
  accepts (length CmdPing) conn ->
  accepts (length CmdVersion) conn ->
  Clamav.readResponse c conn = (Some resp, None) ->
  Clamav.parseResponse resp = Some perr ->
  let text :=
      if errors_Is perr UnknownCommand then lit "unknown command sent to clamav"
      else if errors_Is perr ScanFileSizeLimitExceeded
           then lit "clamav: error from clamav: size limit exceeded"
           else lit "error from clamav: file contains potential virus" in
  Handlers.Ping (fst (Clamav.Ping c (inr conn)))
  = (500, Handlers.ErrorBody (Handlers.NewErrorResponse text))
  /\ Handlers.Version (fst (Clamav.Version c (inr conn)))
     = (500, Handlers.ErrorBody (Handlers.NewErrorResponse text)).
Proof.
  intros Hp Hv Hr Hc text. unfold Clamav.Ping, Clamav.Version.
  rewrite (query_answered CmdPing c conn resp ltac:(discriminate)
             ltac:(unfold Bufio.defaultBufSize; simpl; lia) Hp Hr).
  rewrite (query_answered CmdVersion c conn resp ltac:(discriminate)
             ltac:(unfold Bufio.defaultBufSize; simpl; lia) Hv Hr).
  rewrite Hc. subst text.
  destruct (parseResponse_cases resp perr Hc) as [-> | [-> | ->]];
    split; reflexivity.
Qed.

(** The statement above for a ping answered with the unknown-command
    message. *)
Lemma query_endpoints_daemon_errors_witness :
  Handlers.Ping (fst (Clamav.Ping tcp (inr (goodConn (RespErrUnknownCommand ++ [NUL])))))
  = (500, Handlers.ErrorBody
            (Handlers.NewErrorResponse (lit "unknown command sent to clamav"))).
Proof.
  exact (proj1 (query_endpoints_daemon_errors
                  tcp (goodConn (RespErrUnknownCommand ++ [NUL]))
                  RespErrUnknownCommand ErrUnknownCommand I I eq_refl eq_refl)).
Defined.
